(** * Stock analysis engine (danaelbaba.py): a shallow embedding

    The program is a PySpark notebook.  A DataFrame is modelled as the list of
    its rows in the order Spark presents them; a nullable column is an
    [option]; a [DoubleType] value is the real number it stands for, and the
    arithmetic on it is exact: what is stated below of a computed double is
    what rounding leaves true, and the covariance counter of [stat.corr] is
    given on binary64 as well, to show where rounding decides.  A [str]
    holds code points below 256.  Exceptions raised by Python, by py4j or by
    Spark's analyzer are the left injection of a sum type. *)

From Stdlib Require Import ZArith Reals Lra Lia Ascii String.
From Stdlib Require PrimFloat Uint63.
From stdpp Require Import base option list strings gmap pretty sorting.
Import PrimFloat.PrimFloatNotations.

Local Open Scope Z_scope.

(** ** Calendar dates ([DateType]) *)

Record date := mkDate { d_year : Z; d_month : Z; d_day : Z }.

Global Instance date_eq_dec : EqDecision date.
Proof. solve_decision. Defined.

(** Chronological order: lexicographic on (year, month, day). *)
Definition date_leb (a b : date) : bool :=
  if d_year a <? d_year b then true
  else if d_year b <? d_year a then false
  else if d_month a <? d_month b then true
  else if d_month b <? d_month a then false
  else d_day a <=? d_day b.

(** Ascending order on a nullable date column: Spark sorts NULL first. *)
Definition odate_leb (a b : option date) : bool :=
  match a, b with
  | None, _ => true
  | Some _, None => false
  | Some x, Some y => date_leb x y
  end.

(** ** Rows and the schema (lines 33-42) *)

Record Row := mkRow {
  Date : option date;
  Adj_Close : option R;
  Close : option R;
  High : option R;
  Low : option R;
  Open : option R;
  Volume : option R;
  Stock : string;
  derived : gmap string (option R)
}.

Abbreviation DataFrame := (list Row).

(** The schema's [DoubleType] columns, the values a [column_name] may take. *)
Inductive field := FAdj_Close | FClose | FHigh | FLow | FOpen | FVolume.

Definition field_name (f : field) : string :=
  match f with
  | FAdj_Close => "Adj Close" | FClose => "Close" | FHigh => "High"
  | FLow => "Low" | FOpen => "Open" | FVolume => "Volume"
  end.

(** [col(column_name)] evaluated on a row. *)
Definition col (f : field) (r : Row) : option R :=
  match f with
  | FAdj_Close => Adj_Close r | FClose => Close r | FHigh => High r
  | FLow => Low r | FOpen => Open r | FVolume => Volume r
  end.

Definition with_derived (name : string) (v : option R) (r : Row) : Row :=
  mkRow (Date r) (Adj_Close r) (Close r) (High r) (Low r) (Open r) (Volume r)
        (Stock r) (<[name := v]> (derived r)).

(** ** SQL expressions on nullable doubles

    Spark's arithmetic propagates NULL, and [Divide] (with ANSI mode off)
    answers NULL when the divisor is zero. *)

Global Instance R_eq_dec : EqDecision R := Req_dec_T.
Global Instance Rle_decision (x y : R) : Decision (x <= y)%R := Rle_dec x y.

Definition sql_sub (a b : option R) : option R :=
  match a, b with
  | Some x, Some y => Some (x - y)%R
  | _, _ => None
  end.

Definition sql_mul (a b : option R) : option R :=
  match a, b with
  | Some x, Some y => Some (x * y)%R
  | _, _ => None
  end.

Definition sql_div (a b : option R) : option R :=
  match b with
  | None => None
  | Some y =>
      if decide (y = 0%R) then None
      else match a with
           | None => None
           | Some x => Some (x / y)%R
           end
  end.

(** [year], [month] of a nullable date. *)
Definition year (d : option date) : option Z := d_year <$> d.
Definition month (d : option date) : option Z := d_month <$> d.

(** ** Dataset Builder (lines 44-77) *)

(** [df.withColumn("Stock", lit(stock))] *)
Definition with_Stock (stock : string) (r : Row) : Row :=
  mkRow (Date r) (Adj_Close r) (Close r) (High r) (Low r) (Open r) (Volume r)
        stock (derived r).

(** [combined_df = dfs[0]; for df in dfs[1:]: combined_df = combined_df.union(df)] *)
Definition union_all (dfs : list DataFrame) : DataFrame := mjoin dfs.

(** [to_date(col("Date"), "yyyy-MM-dd")] on a [DateType] column keeps the date. *)
Definition to_date (r : Row) : Row := r.

(** A row has no null: every schema column and every derived column present
    holds a value ([Stock] is a non-nullable literal). *)
Definition no_null (r : Row) : Prop :=
  is_Some (Date r) ∧ is_Some (Adj_Close r) ∧ is_Some (Close r) ∧
  is_Some (High r) ∧ is_Some (Low r) ∧ is_Some (Open r) ∧
  is_Some (Volume r) ∧ map_Forall (λ _ v, is_Some v) (derived r).

Global Instance no_null_dec r : Decision (no_null r).
Proof. unfold no_null. apply _. Defined.

(** [df.dropna()]: how="any" over all columns. *)
Definition dropna (df : DataFrame) : DataFrame := filter no_null df.

(** Lines 44-77: one frame per symbol, tagged, united, dates normalised,
    rows with a null dropped. *)
Definition build_dataset (sources : list (string * DataFrame)) : DataFrame :=
  let dfs : list DataFrame :=
    (λ sr : string * DataFrame, with_Stock sr.1 <$> sr.2) <$> sources in
  dropna (to_date <$> union_all dfs).

(** ** Grouping and windows *)

(** The distinct values of a list, in order of first appearance. *)
Fixpoint distinct `{EqDecision K} (l : list K) : list K :=
  match l with
  | [] => []
  | k :: l' => k :: filter (λ k', k' ≠ k) (distinct l')
  end.

(** [df.groupBy(key)]: one group per distinct key; a group keeps its rows in
    the order of the frame. *)
Definition groupBy `{EqDecision K} (key : Row → K) (df : DataFrame)
  : list (K * DataFrame) :=
  (λ k, (k, filter (λ r, key r = k) df)) <$> distinct (key <$> df).

(** [orderBy("Date")] inside a window partition: a stable ascending sort. *)
Fixpoint insert_by_date (r : Row) (l : DataFrame) : DataFrame :=
  match l with
  | [] => [r]
  | y :: l' =>
      if odate_leb (Date r) (Date y) then r :: l else y :: insert_by_date r l'
  end.

Definition orderBy_Date (df : DataFrame) : DataFrame :=
  foldr insert_by_date [] df.

(** [window_spec = Window.partitionBy("Stock").orderBy("Date")] (line 81):
    the partitions of a frame, each in date order. *)
Definition window_spec (df : DataFrame) : list DataFrame :=
  (λ g : string * DataFrame, orderBy_Date g.2) <$> groupBy Stock df.

(** [df.withColumn(name, fn.over(window_spec))]: [fn] gives one value per row
    of a partition; the rows come out partition by partition. *)
Definition withColumn_over (name : string)
    (fn : DataFrame → list (option R)) (df : DataFrame) : DataFrame :=
  mjoin ((λ p, zip_with (with_derived name) (fn p) p) <$> window_spec df).

(** [df.withColumn(name, expr)] for a row expression. *)
Definition withColumn (name : string) (expr : Row → option R)
    (df : DataFrame) : DataFrame :=
  (λ r, with_derived name (expr r) r) <$> df.

(** A derived column read by name; NULL where the row has no such column
    (the code reads a derived column only after adding it). *)
Definition dcol (name : string) (r : Row) : option R :=
  default None (derived r !! name).

(** [lag(c)]: the value of [c] on the preceding row of the partition, NULL on
    the first row. *)
Definition lag (c : Row → option R) (p : DataFrame) : list (option R) :=
  take (length p) (None :: (c <$> p)).

(** [rowsBetween(lo, hi)]: the rows of the partition at offsets [lo..hi]
    from row [i], cut at the partition's ends. *)
Definition rowsBetween {A} (lo hi : Z) (p : list A) (i : nat) : list A :=
  let start := Z.max 0 (Z.of_nat i + lo) in
  let stop := Z.min (Z.of_nat (length p) - 1) (Z.of_nat i + hi) in
  take (Z.to_nat (stop - start + 1)) (drop (Z.to_nat start) p).

Definition Rsum (xs : list R) : R := foldl Rplus 0%R xs.

(** [mean]/[avg]: the sum of the non-null values (from 0.0, in row order)
    divided by their count; NULL when there is none. *)
Definition sql_avg (vals : list (option R)) : option R :=
  let xs : list R := omap (λ v : option R, v) vals in
  sql_div (Some (Rsum xs)) (Some (INR (length xs))).

(** [avg(c).over(window_spec.rowsBetween(lo, hi))] *)
Definition avg_over (c : Row → option R) (lo hi : Z) (p : DataFrame)
  : list (option R) :=
  imap (λ i _, sql_avg (c <$> rowsBetween lo hi p i)) p.

(** ** Window Aggregator (lines 81-95, 234-238, 312-324) *)

Inductive exn :=
| ValueError (msg : string)
| AnalysisException (msg : string)
| Py4JError (msg : string).

(** The integers that cross from Python to the JVM are Java longs; Python
    turns an integer into text only up to 4300 digits. *)
Definition java_long (n : Z) : Prop := - 2 ^ 63 ≤ n < 2 ^ 63.
Definition java_int (n : Z) : Prop := - 2 ^ 31 ≤ n < 2 ^ 31.
Definition over_4300_digits (n : Z) : Prop := 10 ^ 4300 ≤ Z.abs n.

(** Lines 83-87. *)
Definition add_Prev_Close_Daily_Return (df : DataFrame) : DataFrame :=
  withColumn "Daily_Return"
    (λ r, sql_div (sql_sub (Close r) (dcol "Prev_Close" r)) (dcol "Prev_Close" r))
    (withColumn_over "Prev_Close" (lag Close) df).

(** Lines 93-95. *)
Definition add_Moving_Avg_5 (df : DataFrame) : DataFrame :=
  withColumn_over "Moving_Avg_5" (avg_over Close (-4) 0) df.

(** Lines 81-95: the three derived columns of the notebook. *)
Definition add_calculated_columns (df : DataFrame) : DataFrame :=
  add_Moving_Avg_5 (add_Prev_Close_Daily_Return df).

(** Lines 234-238: both [lag] calls run over [window_spec]. *)
Definition calculate_daily_return (df : DataFrame) : DataFrame :=
  withColumn_over "Daily_Return"
    (λ p, zip_with (λ c l, sql_div (sql_sub c l) l) (Close <$> p) (lag Close p))
    df.

(** Lines 312-324.  [rowsBetween] (line 315): Python replaces a start at or
    below [-(2^63 - 1)] by [Window.unboundedPreceding], which is [-2^63]; a
    start beyond a Java long does not reach the JVM (py4j writes it as a
    string, which fails in Python beyond 4300 digits, and the JVM does not
    read it as a long); the JVM takes 0, the unbounded start, or a 32-bit
    integer, and refuses any other start.  The
    f-string (line 318) fails on an integer of more than 4300 digits.
    [withColumn] (line 319): a frame whose lower bound exceeds its upper
    bound is refused by Spark's analyzer.  A partition has fewer than 2^63
    rows, so that a start of [-2^63] is the partition's first row. *)
Definition calculate_moving_average (df : DataFrame) (column_name : field)
    (num_points : Z) : exn + DataFrame :=
  let start := - num_points + 1 in
  let lo := if decide (start ≤ - (2 ^ 63 - 1)) then - 2 ^ 63 else start in
  let moving_avg_column :=
    "Moving_Avg_" +:+ field_name column_name +:+ "_" +:+ pretty num_points in
  if decide (¬ java_long lo) then
    if decide (over_4300_digits lo) then
      inl (ValueError "Exceeds the limit (4300 digits) for integer string conversion")
    else inl (Py4JError "rowsBetween: the start is not a Java long")
  else if decide (lo ≠ - 2 ^ 63 ∧ ¬ java_int lo) then
    inl (AnalysisException "Boundary start is not a valid integer")
  else if decide (over_4300_digits num_points) then
    inl (ValueError "Exceeds the limit (4300 digits) for integer string conversion")
  else if decide (lo ≤ 0) then
    inr (withColumn_over moving_avg_column (avg_over (col column_name) lo 0) df)
  else
    inl (AnalysisException
           "The lower bound of a window frame must be less than or equal to the upper bound").

(** ** ISO week of the year ([weekofyear]) *)

(** Days since 1970-01-01 of a proleptic Gregorian date. *)
Definition days_from_civil (y m d : Z) : Z :=
  let y' := if m <=? 2 then y - 1 else y in
  let era := y' / 400 in
  let yoe := y' - era * 400 in
  let mp := if m >? 2 then m - 3 else m + 9 in
  let doy := (153 * mp + 2) / 5 + d - 1 in
  let doe := yoe * 365 + yoe / 4 - yoe / 100 + doy in
  era * 146097 + doe - 719468.

(** Monday = 1 .. Sunday = 7. *)
Definition iso_weekday (y m d : Z) : Z :=
  (days_from_civil y m d + 3) mod 7 + 1.

Definition is_leap (y : Z) : bool :=
  ((y mod 4 =? 0) && negb (y mod 100 =? 0)) || (y mod 400 =? 0).

(** A year has 53 ISO weeks when it starts on a Thursday, or on a Wednesday
    and is a leap year. *)
Definition iso_weeks_in_year (y : Z) : Z :=
  let wd := iso_weekday y 1 1 in
  if (wd =? 4) || ((wd =? 3) && is_leap y) then 53 else 52.

Definition iso_week (dt : date) : Z :=
  let y := d_year dt in
  let ordinal := days_from_civil y (d_month dt) (d_day dt)
                 - days_from_civil y 1 1 + 1 in
  let w := (ordinal - iso_weekday y (d_month dt) (d_day dt) + 10) / 7 in
  if w <? 1 then iso_weeks_in_year (y - 1)
  else if (w =? 53) && (iso_weeks_in_year y <? 53) then 1
  else w.

Definition weekofyear (d : option date) : option Z := iso_week <$> d.

(** ** Period Aggregator (lines 391-426) *)

(** One row of a grouped return-rate table: the grouping columns after
    [Stock] (Year, then Month or Week where grouped on), and the aggregates. *)
Record PeriodAggregate := mkAgg {
  g_Stock : string;
  g_period : list (option Z);
  First_Close : option R;
  Last_Close : option R;
  Return_Rate : option R
}.

(** [first("Close")], [last("Close")]: of the rows of the group as they come. *)
Definition first (c : Row → option R) (g : DataFrame) : option R :=
  head g ≫= c.
Definition last (c : Row → option R) (g : DataFrame) : option R :=
  list.last g ≫= c.

(** [((col("Last_Close") - col("First_Close")) / col("First_Close")) * 100] *)
Definition return_rate_expr (first_close last_close : option R) : option R :=
  sql_mul (sql_div (sql_sub last_close first_close) first_close) (Some 100%R).

(** [df.groupBy("Stock", *period).agg(first("Close"), last("Close"))
       .withColumn(<rate>, ...)] *)
Definition return_rate_by (period : Row → list (option Z)) (df : DataFrame)
  : list PeriodAggregate :=
  (λ g : (string * list (option Z)) * DataFrame,
     let f := first Close g.2 in
     let l := last Close g.2 in
     mkAgg g.1.1 g.1.2 f l (return_rate_expr f l))
  <$> groupBy (λ r, (Stock r, period r)) df.

Definition by_Year_Week (r : Row) := [year (Date r); weekofyear (Date r)].
Definition by_Year_Month (r : Row) := [year (Date r); month (Date r)].
Definition by_Year (r : Row) := [year (Date r)].

(** Lines 391-426: (weekly_return, monthly_return, yearly_return). *)
Definition calculate_return_rate (df : DataFrame)
  : list PeriodAggregate * list PeriodAggregate * list PeriodAggregate :=
  (return_rate_by by_Year_Week df,
   return_rate_by by_Year_Month df,
   return_rate_by by_Year df).

(** ** Python helpers: [str.split] and [int] *)

(** [s.split(sep)] for a one-character separator. *)
Fixpoint py_split (sep : ascii) (s : string) : list string :=
  match s with
  | EmptyString => [EmptyString]
  | String a s' =>
      if Ascii.eqb a sep then EmptyString :: py_split sep s'
      else match py_split sep s' with
           | h :: t => String a h :: t
           | [] => [String a EmptyString]
           end
  end.

(** A [str] of the model holds code points below 256, one per character;
    a [str] with other characters is outside the model. *)

(** [Py_ISSPACE]: the white space that [PyLong_FromString] skips. *)
Definition py_isspace (a : ascii) : bool :=
  let n := Z.of_nat (nat_of_ascii a) in
  ((9 <=? n) && (n <=? 13)) || (n =? 32).

(** [_PyUnicode_TransformDecimalAndSpaceToASCII], which [int] applies to
    its argument first: beyond ASCII, a white-space character (below 256
    these are U+0085 and U+00A0) becomes a space; there is no decimal digit
    beyond ASCII below 256, and any other character beyond ASCII is kept
    here, as it ends the number like the ['?'] CPython puts in its place. *)
Definition py_to_ascii (a : ascii) : ascii :=
  let n := Z.of_nat (nat_of_ascii a) in
  if (n =? 133) || (n =? 160) then " "%char else a.

Definition py_digit (a : ascii) : option Z :=
  let n := Z.of_nat (nat_of_ascii a) in
  if (48 <=? n) && (n <=? 57) then Some (n - 48) else None.

Fixpoint py_lstrip (l : list ascii) : list ascii :=
  match l with
  | a :: l' => if py_isspace a then py_lstrip l' else l
  | [] => []
  end.

(** The scan of the decimal digits: single underscores are allowed between
    digits.  It gives the value, the number of digits and the characters
    after the last digit. *)
Fixpoint py_digits (acc digits : Z) (after_digit : bool) (l : list ascii)
  : option (Z * Z * list ascii) :=
  match l with
  | [] => if after_digit then Some (acc, digits, []) else None
  | a :: l' =>
      match py_digit a with
      | Some d => py_digits (10 * acc + d) (digits + 1) true l'
      | None =>
          if Ascii.eqb a "_"%char then
            if after_digit then py_digits acc digits false l' else None
          else if after_digit then Some (acc, digits, l) else None
      end
  end.

(** [int(s)] in base 10 (CPython 3.11): white space, a sign, the digits,
    white space; more than 4300 digits are refused.  [inl] is the
    ValueError. *)
Definition py_int (s : string) : exn + Z :=
  let bad := inl (ValueError ("invalid literal for int() with base 10: " +:+ s)) in
  let number (negative : bool) (l : list ascii) : exn + Z :=
    match py_digits 0 0 false l with
    | None => bad
    | Some (v, digits, rest) =>
        if 4300 <? digits then
          inl (ValueError
                 "Exceeds the limit (4300 digits) for integer string conversion")
        else if forallb py_isspace rest then
          inr (if negative then - v else v)
        else bad
    end in
  match py_lstrip (py_to_ascii <$> list_ascii_of_string s) with
  | "+"%char :: l => number false l
  | "-"%char :: l => number true l
  | l => number false l
  end.

(** [a, b, _ = map(int, parts)]: [map] is lazy, so the parts are converted
    one by one as the unpacking asks for them, a fourth one included. *)
Definition unpack3_ints (parts : list string) : exn + (Z * Z * Z) :=
  let short := inl (ValueError "not enough values to unpack (expected 3)") in
  match parts with
  | [] => short
  | p1 :: rest1 =>
    match py_int p1 with
    | inl e => inl e
    | inr a =>
      match rest1 with
      | [] => short
      | p2 :: rest2 =>
        match py_int p2 with
        | inl e => inl e
        | inr b =>
          match rest2 with
          | [] => short
          | p3 :: rest3 =>
            match py_int p3 with
            | inl e => inl e
            | inr c =>
              match rest3 with
              | [] => inr (a, b, c)
              | p4 :: _ =>
                match py_int p4 with
                | inl e => inl e
                | inr _ => inl (ValueError "too many values to unpack (expected 3)")
                end
              end
            end
          end
        end
      end
    end
  end.

(** ** Best-Performer Selector (lines 442-472) *)

(** [orderBy(col("Return_Rate").desc())]: descending, NULL last, stable. *)
Definition rate_geb (a b : option R) : bool :=
  match a, b with
  | _, None => true
  | None, Some _ => false
  | Some x, Some y => bool_decide (y <= x)%R
  end.

Fixpoint insert_by_rate (a : PeriodAggregate) (l : list PeriodAggregate)
  : list PeriodAggregate :=
  match l with
  | [] => [a]
  | b :: l' =>
      if rate_geb (Return_Rate a) (Return_Rate b) then a :: l
      else b :: insert_by_rate a l'
  end.

Definition orderBy_Return_Rate_desc (t : list PeriodAggregate)
  : list PeriodAggregate :=
  foldr insert_by_rate [] t.

(** Lines 442-472.  [col("Year") == start_year] hands the integer to the
    JVM, which takes a Java long. *)
Definition best_return_rate (df : DataFrame) (start_date period : string)
  : exn + list PeriodAggregate :=
  let not_long := inl (Py4JError "the integer is not a Java long") in
  match unpack3_ints (py_split "-"%char start_date) with
  | inl e => inl e
  | inr (start_year, start_month, _) =>
      if decide (period = "month") then
        if decide (¬ java_long start_year) then not_long
        else if decide (¬ java_long start_month) then not_long
        else
          let filtered_df :=
            filter (λ r, year (Date r) = Some start_year
                         ∧ month (Date r) = Some start_month) df in
          inr (take 1 (orderBy_Return_Rate_desc
                         (return_rate_by by_Year_Month filtered_df)))
      else if decide (period = "year") then
        if decide (¬ java_long start_year) then not_long
        else
          let filtered_df := filter (λ r, year (Date r) = Some start_year) df in
          inr (take 1 (orderBy_Return_Rate_desc
                         (return_rate_by by_Year filtered_df)))
      else inl (ValueError "Invalid period. Choose 'month' or 'year'.")
  end.

(** ** Correlation Engine (lines 352-365) *)

(** A JVM double as [stat.corr] returns it: a number, NaN or an infinity. *)
Inductive jdouble :=
| JFinite (x : R)
| JNaN
| JInfinity (negative : bool).

Global Instance Rlt_decision (x y : R) : Decision (x < y)%R := Rlt_dec x y.

(** [math.sqrt] *)
Definition jsqrt (x : R) : jdouble :=
  if decide (x < 0)%R then JNaN else JFinite (sqrt x).

(** JVM division of a number by a double: 0/0 is NaN, x/0 an infinity. *)
Definition jdiv (a : R) (b : jdouble) : jdouble :=
  match b with
  | JNaN => JNaN
  | JInfinity _ => JFinite 0
  | JFinite y =>
      if decide (y = 0%R) then
        if decide (a = 0%R) then JNaN else JInfinity (bool_decide (a < 0)%R)
      else JFinite (a / y)
  end.

(** Spark's [StatFunctions.CovarianceCounter], in exact arithmetic: its
    doubles are read as the numbers they stand for and no operation rounds.
    The counter as the JVM runs it, rounding at every step, is
    [CovarianceCounter64] below; the properties stated of this one are those
    that rounding leaves true. *)
Record CovarianceCounter := mkCounter {
  xAvg : R; yAvg : R; Ck : R; MkX : R; MkY : R; count : Z
}.

Definition new_CovarianceCounter : CovarianceCounter :=
  mkCounter 0 0 0 0 0 0.

(** [CovarianceCounter.add(x, y)] *)
Definition counter_add (c : CovarianceCounter) (xy : R * R) : CovarianceCounter :=
  let x := xy.1 in
  let y := xy.2 in
  let deltaX := (x - xAvg c)%R in
  let deltaY := (y - yAvg c)%R in
  let count' := count c + 1 in
  let xAvg' := (xAvg c + deltaX / IZR count')%R in
  let yAvg' := (yAvg c + deltaY / IZR count')%R in
  mkCounter xAvg' yAvg'
            (Ck c + deltaX * (y - yAvg'))%R
            (MkX c + deltaX * (x - xAvg'))%R
            (MkY c + deltaY * (y - yAvg'))%R
            count'.

(** [StatFunctions.pearsonCorrelation]: one pass over the rows, then
    [Ck / math.sqrt(MkX * MkY)]. *)
Definition pearsonCorrelation (sample : list (R * R)) : jdouble :=
  let counts := foldl counter_add new_CovarianceCounter sample in
  jdiv (Ck counts) (jsqrt (MkX counts * MkY counts)).

(** The counter on binary64, the doubles of the JVM; [count] is a long,
    converted where it divides. *)
Abbreviation double := PrimFloat.float.






(** [df.filter(col("Stock") == stock).select("Date", col(column))] *)
Definition select_stock (df : DataFrame) (stock : string) (column : field)
  : list (option date * option R) :=
  (λ r, (Date r, col column r)) <$> filter (λ r, Stock r = stock) df.

(** [a.join(b, on="Date", how="inner")]: the pairs of rows with equal,
    non-null dates, in the order of the left then of the right frame. *)
Definition join_on_Date (a b : list (option date * option R))
  : list (option R * option R) :=
  a ≫= λ ra,
    omap (λ rb : option date * option R,
            match ra.1, rb.1 with
            | Some d1, Some d2 =>
                if decide (d1 = d2) then Some (ra.2, rb.2) else None
            | _, _ => None
            end) b.

(** [row.getDouble]: a NULL slot of a row holds zero. *)
Definition getDouble (v : option R) : R := default 0%R v.

(** Lower case as the analyzer's resolver compares names
    ([String.equalsIgnoreCase]) on the code points below 256: the letters A
    to Z and the capitals 192 to 222, the sign 215 apart. *)
Definition ascii_lower (a : ascii) : ascii :=
  let n := nat_of_ascii a in
  if ((65 <=? n) && (n <=? 90)
      || (192 <=? n) && (n <=? 222) && negb (n =? 215))%nat
  then ascii_of_nat (n + 32) else a.

Fixpoint string_lower (s : string) : string :=
  match s with
  | EmptyString => EmptyString
  | String a s' => String (ascii_lower a) (string_lower s')
  end.

(** A name that [stat.corr] reads as one column name: without a dot, which
    separates the parts of a nested or qualified name, and without a
    backtick, which quotes a part. *)
Definition plain_name (s : string) : Prop :=
  Forall (λ a, a ≠ "."%char ∧ a ≠ "`"%char) (list_ascii_of_string s).

Global Instance plain_name_dec (s : string) : Decision (plain_name s).
Proof. unfold plain_name. apply _. Defined.

(** The alias [f"{column}_{stock}"]. *)
Definition alias (column : field) (stock : string) : string :=
  field_name column +:+ "_" +:+ stock.

(** Lines 352-365.  [stat.corr] resolves its two names among the columns of
    the joined frame, [Date] and the two aliases, the first name first.  An
    alias with a dot or a backtick is not read as one name and names no
    column of this frame; names resolve without regard to case, so when the
    two aliases are the same name the analyzer cannot tell the columns apart
    and refuses the reference. *)
Definition calculate_correlation_between_stocks (df : DataFrame)
    (stock1 stock2 : string) (column : field) : exn + jdouble :=
  let stock1_data := select_stock df stock1 column in
  let stock2_data := select_stock df stock2 column in
  let joined_data := join_on_Date stock1_data stock2_data in
  let col1 := alias column stock1 in
  let col2 := alias column stock2 in
  if decide (¬ plain_name col1)
  then inl (AnalysisException ("Cannot resolve column name " +:+ col1))
  else if decide (string_lower col1 = string_lower col2)
  then inl (AnalysisException ("Reference is ambiguous: " +:+ col1))
  else if decide (¬ plain_name col2)
  then inl (AnalysisException ("Cannot resolve column name " +:+ col2))
  else inr (pearsonCorrelation
              ((λ vw : option R * option R, (getDouble vw.1, getDouble vw.2))
                 <$> joined_data)).

(** * Vocabulary of the properties *)

(** Sample data for the concrete instances below. *)
Definition sample_date : date := mkDate 2020 1 2.

(** A row complete in Date, Open, High, Low, Close and Volume, null in
    Adj Close. *)
Definition row_null_Adj_Close : Row :=
  mkRow (Some sample_date) None (Some 10%R) (Some 11%R) (Some 9%R)
        (Some 10%R) (Some 1000%R) "" ∅.

(** The start date splits on "-" into exactly three integers [y], [m], [d]. *)
Definition three_ints (s : string) (y m d : Z) : Prop :=
  ∃ a b c, py_split "-"%char s = [a; b; c]
           ∧ py_int a = inr y ∧ py_int b = inr m ∧ py_int c = inr d.

(** Case analysis on the integer comparisons of a goal. *)
Ltac Zbool :=
  repeat match goal with
         | H : context [?a <? ?b] |- _ => destruct (Z.ltb_spec a b)
         | |- context [?a <? ?b] => destruct (Z.ltb_spec a b)
         | H : context [?a <=? ?b] |- _ => destruct (Z.leb_spec a b)
         | |- context [?a <=? ?b] => destruct (Z.leb_spec a b)
         end.

(** Row [a] is not later than row [b]. *)
Definition not_later (a b : Row) : Prop := odate_leb (Date a) (Date b) = true.

(** A frame is in chronological order. *)
Definition chronological (df : DataFrame) : Prop := StronglySorted not_later df.

(** The partition of symbol [S], in date order. *)
Definition partition_of (S : string) (df : DataFrame) : DataFrame :=
  orderBy_Date (filter (λ r, Stock r = S) df).

(** The symbols of a frame, in order of first appearance. *)
Definition symbols (df : DataFrame) : list string := distinct (Stock <$> df).

(** A frame laid out partition by partition: the listed symbols are
    distinct, and each has a non-empty partition of its own rows in date
    order. *)
Definition laid_out (g : string → DataFrame) (ks : list string) : Prop :=
  NoDup ks ∧
  ∀ S, S ∈ ks → g S ≠ [] ∧ Forall (λ r, Stock r = S) (g S) ∧ chronological (g S).

(** The schema columns of a row, derived columns dropped. *)
Definition raw (r : Row) : Row :=
  mkRow (Date r) (Adj_Close r) (Close r) (High r) (Low r) (Open r) (Volume r)
        (Stock r) ∅.

(** What [withColumn_over] does to one partition. *)
Definition over (name : string) (fn : DataFrame → list (option R))
    (p : DataFrame) : DataFrame :=
  zip_with (with_derived name) (fn p) p.

(** A window function that yields one value per row. *)
Definition per_row (fn : DataFrame → list (option R)) : Prop :=
  ∀ p, length (fn p) = length p.

(** [T] acts on a laid-out frame partition by partition, as [h]. *)
Definition stage (T h : DataFrame → DataFrame) : Prop :=
  ∀ g ks, laid_out g ks → T (mjoin (g <$> ks)) = mjoin ((h ∘ g) <$> ks).

(** Lines 83-87 on one partition. *)
Definition part_Prev_Close_Daily_Return (p : DataFrame) : DataFrame :=
  (λ r, with_derived "Daily_Return"
          (sql_div (sql_sub (Close r) (dcol "Prev_Close" r)) (dcol "Prev_Close" r))
          r)
  <$> over "Prev_Close" (lag Close) p.

(** A row without nulls, all prices equal to [close]. *)
Definition price_row (stock : string) (d : date) (close : R) : Row :=
  mkRow (Some d) (Some close) (Some close) (Some close) (Some close)
        (Some close) (Some 1000%R) stock ∅.

(** One symbol, three days, closes 10 (Jan 6), 11 (Jan 7) and 9 (Jan 8),
    listed out of date order. *)
Definition three_days : DataFrame :=
  [ price_row "AAPL" (mkDate 2020 1 8) 9;
    price_row "AAPL" (mkDate 2020 1 6) 10;
    price_row "AAPL" (mkDate 2020 1 7) 11 ].

(** The close of the chronologically first and last row of a group: the
    group is put in date order first. *)
Definition chronological_first (c : Row → option R) (g : DataFrame) : option R :=
  head (orderBy_Date g) ≫= c.
Definition chronological_last (c : Row → option R) (g : DataFrame) : option R :=
  list.last (orderBy_Date g) ≫= c.

(** The rows of every symbol come in date order, as in a Dataset ordered by
    (symbol, date). *)
Definition chronological_per_symbol (df : DataFrame) : Prop :=
  ∀ sym, chronological (filter (λ r, Stock r = sym) df).

(** The rows of the group of [return_rate_by] for a symbol and a period key. *)
Definition group_rows (period : Row → list (option Z)) (df : DataFrame)
    (sym : string) (key : list (option Z)) : DataFrame :=
  filter (λ r, (Stock r, period r) = (sym, key)) df.

(** The period key (Year, Month) of January 2020. *)
Definition january_2020 : list (option Z) := [Some 2020; Some 1].

(** The same three days in date order. *)
Definition three_days_in_order : DataFrame :=
  [ price_row "AAPL" (mkDate 2020 1 6) 10;
    price_row "AAPL" (mkDate 2020 1 7) 11;
    price_row "AAPL" (mkDate 2020 1 8) 9 ].

(** The trailing [n] rows up to row [i], row [i] included: of the rows
    [0..i], the last [n], or all of them when there are fewer. *)
Definition trailing {A} (n i : nat) (l : list A) : list A :=
  drop (S i - n) (take (S i) l).


(** A window function that reads the schema columns only. *)
Definition reads_raw (fn : DataFrame → list (option R)) : Prop :=
  ∀ q p, raw <$> q = raw <$> p → fn q = fn p.

(** Lines 81-95 on one partition. *)
Definition part_calculated_columns (p : DataFrame) : DataFrame :=
  over "Moving_Avg_5" (avg_over Close (-4) 0) (part_Prev_Close_Daily_Return p).

(** The values of line 235 on one partition. *)
Definition daily_return_over (p : DataFrame) : list (option R) :=
  zip_with (λ c l, sql_div (sql_sub c l) l) (Close <$> p) (lag Close p).

Local Open Scope R_scope.

(** The counter after the rows of a sample. *)
Definition counter_of (l : list (R * R)) : CovarianceCounter :=
  foldl counter_add new_CovarianceCounter l.

(** The first (second) components of the sample are all [v]. *)
Definition constant_x (v : R) (l : list (R * R)) : Prop := Forall (λ p, p.1 = v) l.
Definition constant_y (v : R) (l : list (R * R)) : Prop := Forall (λ p, p.2 = v) l.

(** What holds of the counter after any sample. *)
Record counter_inv (l : list (R * R)) (c : CovarianceCounter) : Prop := {
  inv_MkX : 0 <= MkX c;
  inv_MkY : 0 <= MkY c;
  inv_Ck : Ck c * Ck c <= MkX c * MkY c;
  inv_xAvg : ∀ v, l ≠ [] → constant_x v l → xAvg c = v;
  inv_yAvg : ∀ v, l ≠ [] → constant_y v l → yAvg c = v;
  inv_MkX_0 : MkX c = 0 ↔ ∃ v, constant_x v l;
  inv_MkY_0 : MkY c = 0 ↔ ∃ v, constant_y v l
}.

(** A sample on which Pearson's coefficient is not defined: fewer than two
    points, or a series without variance. *)
Definition degenerate (l : list (R * R)) : Prop :=
  (length l < 2)%nat ∨ (∃ v, constant_x v l) ∨ (∃ v, constant_y v l).

(** The date-aligned sample [stat.corr] runs over. *)
Definition aligned_sample (df : DataFrame) (stock1 stock2 : string)
    (column : field) : list (R * R) :=
  (λ vw : option R * option R, (getDouble vw.1, getDouble vw.2))
  <$> join_on_Date (select_stock df stock1 column)
                   (select_stock df stock2 column).

(** The two aliases are one column name to the analyzer. *)
Definition ambiguous (column : field) (stock1 stock2 : string) : Prop :=
  string_lower (alias column stock1) = string_lower (alias column stock2).

Global Instance ambiguous_dec column stock1 stock2 :
  Decision (ambiguous column stock1 stock2).
Proof. unfold ambiguous. apply _. Defined.

(** Two symbols on one common day. *)
Definition one_common_day : DataFrame :=
  [ price_row "AAPL" (mkDate 2020 1 6) 10;
    price_row "AAPL" (mkDate 2020 1 7) 11;
    price_row "MSFT" (mkDate 2020 1 7) 50 ].

(** Two symbols on two common days, both series varying. *)
Definition two_common_days : DataFrame :=
  [ price_row "AAPL" (mkDate 2020 1 6) 10;
    price_row "MSFT" (mkDate 2020 1 6) 50;
    price_row "AAPL" (mkDate 2020 1 7) 11;
    price_row "MSFT" (mkDate 2020 1 7) 52 ].





(** The pair of values a left and a right row contribute to the join. *)
Definition join_match (ra rb : option date * option R)
  : option (option R * option R) :=
  match ra.1, rb.1 with
  | Some d1, Some d2 => if decide (d1 = d2) then Some (ra.2, rb.2) else None
  | _, _ => None
  end.

Local Close Scope R_scope.

(** * The rest of the notebook, and what its properties speak of *)

(** The grouping columns of a row of a return-rate table. *)
Definition agg_key (a : PeriodAggregate) : string * list (option Z) :=
  (g_Stock a, g_period a).

(** A stable insertion sort by a comparison [geb a b], "[a] may come before
    [b]": what [orderBy] does in this model. *)
Fixpoint insert_by {A} (geb : A → A → bool) (a : A) (l : list A) : list A :=
  match l with
  | [] => [a]
  | b :: l' => if geb a b then a :: l else b :: insert_by geb a l'
  end.

Definition sort_by {A} (geb : A → A → bool) (t : list A) : list A :=
  foldr (insert_by geb) [] t.

(** [orderBy(col(key).desc())] on any table: descending, NULL last, stable. *)
Definition orderBy_desc {A} (key : A → option R) (t : list A) : list A :=
  sort_by (λ a b, rate_geb (key a) (key b)) t.

(** [a] comes before [b] in a descending order with NULL last. *)
Definition not_below {A} (key : A → option R) (a b : A) : Prop :=
  rate_geb (key a) (key b) = true.

(** The integers that the filter of [best_return_rate] hands to the JVM for
    a period are Java longs. *)
Definition filter_longs (period : string) (y m : Z) : Prop :=
  java_long y ∧ (period = "month" → java_long m).

(** The rows of the frame that [best_return_rate] keeps for a period. *)
Definition in_period (period : string) (y m : Z) (r : Row) : Prop :=
  year (Date r) = Some y ∧ (period = "month" → month (Date r) = Some m).

(** The rows of [calculate_return_rate]'s monthly or yearly table for the
    period of a start date. *)
Definition candidates (df : DataFrame) (period : string) (y m : Z)
  : list PeriodAggregate :=
  if decide (period = "month") then
    filter (λ a, g_period a = [Some y; Some m]) (calculate_return_rate df).1.2
  else
    filter (λ a, g_period a = [Some y]) (calculate_return_rate df).2.

(** ** Summary statistics (lines 103-108) *)

(** [sum]: NULL until the first non-null value, which is added to 0.0; a
    NULL leaves the sum as it is. *)
Definition sql_sum (vals : list (option R)) : option R :=
  foldl (λ acc v, match v with
                  | None => acc
                  | Some x => Some (default 0%R acc + x)%R
                  end) None vals.

(** [least], [greatest]: NULL is skipped. *)
Definition least (a b : option R) : option R :=
  match a, b with
  | None, _ => b
  | _, None => a
  | Some x, Some y => Some (Rmin x y)
  end.

Definition greatest (a b : option R) : option R :=
  match a, b with
  | None, _ => b
  | _, None => a
  | Some x, Some y => Some (Rmax x y)
  end.

(** [min], [max]: NULL at first, then the least (greatest) of the buffer and
    the next value. *)
Definition sql_min (vals : list (option R)) : option R := foldl least None vals.
Definition sql_max (vals : list (option R)) : option R := foldl greatest None vals.

Record SummaryStats := mkSummary {
  s_Stock : string;
  Total_Close : option R;
  Avg_Close : option R;
  Min_Close : option R;
  Max_Close : option R
}.

(** Lines 103-108.  The sum and the average are in exact arithmetic; the
    minimum and the maximum compare values and do not round. *)
Definition summary_stats (df : DataFrame) : list SummaryStats :=
  (λ g : string * DataFrame,
     let c := Close <$> g.2 in
     mkSummary g.1 (sql_sum c) (sql_avg c) (sql_min c) (sql_max c))
  <$> groupBy Stock df.

(** ** Highest daily return (lines 113, 245-256) *)

(** Line 113: [orderBy(col("Daily_Return").desc())
    .select("Stock", "Date", "Daily_Return").first()]; [None] on an empty
    frame. *)
Definition highest_return (df : DataFrame)
  : option (string * option date * option R) :=
  head ((λ r, (Stock r, Date r, dcol "Daily_Return" r))
        <$> orderBy_desc (dcol "Daily_Return") df).

Record StockMaxReturn := mkStockMax {
  m_Stock : string;
  Max_Daily_Return : option R
}.

(** Lines 245-256: (stock_max_return, highest_return). *)
Definition get_stock_with_highest_daily_return (df : DataFrame)
  : list StockMaxReturn * list StockMaxReturn :=
  let stock_max_return :=
    (λ g : string * DataFrame,
       mkStockMax g.1 (sql_max (dcol "Daily_Return" <$> g.2)))
    <$> groupBy Stock df in
  (stock_max_return, take 1 (orderBy_desc Max_Daily_Return stock_max_return)).

(** ** Average prices (lines 207-221) *)

(** One row of [avg_prices]: the grouping columns Stock, and Year, Month and
    Week, and the two averages (the columns Avg_Open and Avg_Close). *)
Record AvgPrices := mkAvgPrices {
  p_Stock : string;
  p_period : list (option Z);
  Avg_Open : option R;
  p_Avg_Close : option R
}.

Definition by_Year_Month_Week (r : Row) :=
  [year (Date r); month (Date r); weekofyear (Date r)].

(** Python's truth value of the argument [stock]: [None] and the empty
    string are false. *)
Definition truthy (stock : option string) : bool :=
  match stock with
  | None => false
  | Some s => negb (String.eqb s "")
  end.

(** Lines 207-221; [stock=None] is the default. *)
Definition calculate_average_prices_for_stock (df : DataFrame)
    (stock : option string) : list AvgPrices :=
  let df := if truthy stock
            then filter (λ r, Some (Stock r) = stock) df
            else df in
  (λ g : (string * list (option Z)) * DataFrame,
     mkAvgPrices g.1.1 g.1.2 (sql_avg (Open <$> g.2)) (sql_avg (Close <$> g.2)))
  <$> groupBy (λ r, (Stock r, by_Year_Month_Week r)) df.

(** The non-null closes of a symbol, in frame order. *)
Definition closes_of (df : DataFrame) (sym : string) : list R :=
  omap Close (filter (λ r, Stock r = sym) df).

(** Two rows of one symbol with their daily returns: NULL, then 0.1. *)
Definition two_returns : DataFrame :=
  [ with_derived "Daily_Return" None (price_row "AAPL" (mkDate 2020 1 6) 10);
    with_derived "Daily_Return" (Some (1 / 10)%R)
      (price_row "AAPL" (mkDate 2020 1 7) 11) ].

(** ** The application (app.py, lines 26-32) *)

(** ["%0<w>d" % n] for [n] not negative: the decimal digits of [n], with
    zeros on the left up to width [w]. *)
Definition fmt_0d (w : nat) (n : Z) : string :=
  let s := pretty n in
  string_of_list_ascii (replicate (w - String.length s) "0"%char) +:+ s.

(** [str(d)] of a [datetime.date]: ["%04d-%02d-%02d"]. *)
Definition str_date (d : date) : string :=
  fmt_0d 4 (d_year d) +:+ "-" +:+ fmt_0d 2 (d_month d) +:+ "-"
  +:+ fmt_0d 2 (d_day d).

(** The button "Find Best Stock" (line 30):
    [best_return_rate(df, str(start_date), period=period)]. *)
Definition find_best_stock (df : DataFrame) (start_date : date)
    (period : string) : exn + list PeriodAggregate :=
  best_return_rate df (str_date start_date) period.

(** The dates a [datetime.date] can hold lie in these ranges. *)
Definition date_in_range (d : date) : Prop :=
  1 ≤ d_year d ≤ 9999 ∧ 1 ≤ d_month d ≤ 12 ∧ 1 ≤ d_day d ≤ 31.

(** The string holds no hyphen. *)
Fixpoint no_hyphen (s : string) : bool :=
  match s with
  | EmptyString => true
  | String a s' => negb (Ascii.eqb a "-"%char) && no_hyphen s'
  end.

(** [int] reads the [w]-digit form of [n] back as [n], and the form holds no
    hyphen. *)
Definition reads_back (w : nat) (n : Z) : bool :=
  match py_int (fmt_0d w n) with
  | inr v => (v =? n) && no_hyphen (fmt_0d w n)
  | inl _ => false
  end.

(** ** Correlation matrix (lines 171-201) *)

(** A numeric column of the frame read by its name: one of the schema, or a
    derived one. *)
Definition field_of_name (c : string) : option field :=
  head (filter (λ f, field_name f = c)
               [FAdj_Close; FClose; FHigh; FLow; FOpen; FVolume]).

Definition named_col (c : string) (r : Row) : option R :=
  match field_of_name c with
  | Some f => col f r
  | None => dcol c r
  end.

(** [Dataset.resolve]: the column of the frame that a name stands for, among
    the names [columns] of the frame's columns.  Names are compared without
    regard to case; a name with a dot or a backtick is not read as one
    column name, and names none of the flat, unqualified columns of this
    model. *)
Definition resolve (columns : list string) (name : string) : exn + string :=
  if decide (plain_name name) then
    match filter (λ c, string_lower c = string_lower name) columns with
    | [c] => inr c
    | [] => inl (AnalysisException ("Cannot resolve column name " +:+ name))
    | _ => inl (AnalysisException ("Reference is ambiguous: " +:+ name))
    end
  else inl (AnalysisException ("Cannot resolve column name " +:+ name)).

(** The double that [stat.corr] computes from two columns of the frame. *)
Definition corr_of (df : DataFrame) (c1 c2 : string) : jdouble :=
  pearsonCorrelation
    ((λ r, (getDouble (named_col c1 r), getDouble (named_col c2 r))) <$> df).

(** [df.stat.corr(col1, col2)] *)
Definition stat_corr (columns : list string) (df : DataFrame)
    (col1 col2 : string) : exn + jdouble :=
  match resolve columns col1 with
  | inl e => inl e
  | inr c1 =>
      match resolve columns col2 with
      | inl e => inl e
      | inr c2 => inr (corr_of df c1 c2)
      end
  end.

(** Line 173; [dtypes] is [df.dtypes], the (name, type) pairs of the frame's
    schema, which the rows of the model do not carry. *)
Definition numeric_cols (dtypes : list (string * string)) : list string :=
  fst <$> filter (λ cd, cd.2 = "int" ∨ cd.2 = "double") dtypes.

(** Lines 178-188: the dictionary after the two loops, or the exception
    that [stat.corr] raised in them. *)
Definition correlation_matrix (columns : list string) (df : DataFrame)
    (cols : list string) : exn + gmap (string * string) jdouble :=
  foldl (λ acc (ic : nat * string),
           foldl (λ acc col2,
                    match acc with
                    | inl e => inl e
                    | inr m =>
                        match (if decide (ic.2 = col2) then inr (JFinite 1)
                               else stat_corr columns df ic.2 col2) with
                        | inl e => inl e
                        | inr correlation_value =>
                            inr (<[(col2, ic.2) := correlation_value]>
                                   (<[(ic.2, col2) := correlation_value]> m))
                        end
                    end)
                 acc (drop ic.1 cols))
        (inr ∅) (imap pair cols).

(** The Python exceptions of the notebook's helpers; [Raised] is one that
    Spark raised. *)
Inductive py_error :=
| KeyError (key : string * string)
| TypeError (msg : string)
| Raised (e : exn).

(** A [for] loop whose body may raise: the first exception ends it. *)
Fixpoint for_each {A B E} (body : A → E + B) (l : list A) : E + list B :=
  match l with
  | [] => inr []
  | x :: l' =>
      match body x with
      | inl e => inl e
      | inr y =>
          match for_each body l' with
          | inl e => inl e
          | inr ys => inr (y :: ys)
          end
      end
  end.

(** Lines 171-201.  The function returns nothing; its result here is what it
    prints: [None] for the message of line 175, else the rows of the table
    (the name of a column, then the values of [correlation_matrix] that the
    print loop looks up).  The formatting of the doubles is left out. *)
Definition calculate_correlation_matrix (dtypes : list (string * string))
    (df : DataFrame) : py_error + option (list (string * list jdouble)) :=
  let cols := numeric_cols dtypes in
  if decide (cols = []) then inr None
  else
    match correlation_matrix dtypes.*1 df cols with
    | inl e => inl (Raised e)
    | inr m =>
        match for_each (λ col1,
                match for_each (λ col2,
                        match m !! (col1, col2) with
                        | Some v => inr v
                        | None => inl (KeyError (col1, col2))
                        end) cols with
                | inl e => inl e
                | inr vs => inr (col1, vs)
                end) cols with
        | inl e => inl e
        | inr rows => inr (Some rows)
        end
    end.

(** The place of a column among the numeric columns. *)
Definition position (c : string) (cols : list string) : nat :=
  default 0%nat (fst <$> list_find (λ x, x = c) cols).

(** The entry of the matrix for a pair of columns: 1.0 on the diagonal, and
    elsewhere the one double computed for the pair, with the column that
    comes first among the numeric columns as the first argument of
    [stat.corr]. *)
Definition matrix_entry (df : DataFrame) (cols : list string)
    (c1 c2 : string) : jdouble :=
  if decide (c1 = c2) then JFinite 1
  else if decide (position c1 cols < position c2 cols)%nat then corr_of df c1 c2
  else corr_of df c2 c1.

(** The pairs the two loops go through, and what they do with one. *)
Definition loop_pairs (cols : list string) : list ((nat * string) * string) :=
  imap pair cols ≫= λ ic, pair ic <$> drop ic.1 cols.

Definition loop_value (columns : list string) (df : DataFrame)
    (p : (nat * string) * string) : exn + jdouble :=
  if decide (p.1.2 = p.2) then inr (JFinite 1)
  else stat_corr columns df p.1.2 p.2.

Definition loop_body (columns : list string) (df : DataFrame)
    (acc : exn + gmap (string * string) jdouble)
    (p : (nat * string) * string) : exn + gmap (string * string) jdouble :=
  match acc with
  | inl e => inl e
  | inr m =>
      match loop_value columns df p with
      | inl e => inl e
      | inr v => inr (<[(p.2, p.1.2) := v]> (<[(p.1.2, p.2) := v]> m))
      end
  end.

(** A frame's schema for the instances: two numeric columns among four. *)
Definition open_close_dtypes : list (string * string) :=
  [("Date", "date"); ("Open", "double"); ("Close", "double");
   ("Stock", "string")].

(** ** The period between data points (lines 132-144) *)

Definition days_of (d : date) : Z :=
  days_from_civil (d_year d) (d_month d) (d_day d).

(** [datediff(end, start)]: the days from [start] to [end]. *)
Definition datediff (e s : option date) : option Z :=
  match e, s with
  | Some x, Some y => Some (days_of x - days_of y)
  | _, _ => None
  end.

(** [lag("Date")] over a partition. *)
Definition lag_Date (p : DataFrame) : list (option date) :=
  take (length p) (None :: (Date <$> p)).

(** [groupBy(c).count()] on a column: its distinct values in order of first
    appearance, each with the number of its rows (a long, far from its
    bound). *)
Definition groupBy_count `{EqDecision K} (vals : list K) : list (K * Z) :=
  (λ k, (k, Z.of_nat (length (filter (λ v, v = k) vals)))) <$> distinct vals.

(** Lines 132-144.  [Window.orderBy("Date")] has no [partitionBy]: the whole
    frame is one partition in date order.  The column [Date_Diff] (an
    integer column) is kept as a list beside the rows.  On an empty frame
    [first()] is [None], and subscripting it raises. *)
Definition deduce_period (df : DataFrame) : py_error + option Z :=
  let df := orderBy_Date df in
  let p := orderBy_Date df in
  let Date_Diff := zip_with datediff (Date <$> p) (lag_Date p) in
  let counts := groupBy_count Date_Diff in
  match head (sort_by (λ a b : option Z * Z, b.2 <=? a.2) counts) with
  | None => inl (TypeError "'NoneType' object is not subscriptable")
  | Some period => inr period.1
  end.

(** The date of the row is the date of at least two rows of the frame. *)
Definition date_shared (df : DataFrame) (r : Row) : Prop :=
  (2 ≤ length (filter (λ r', Date r' = Date r) df))%nat.

(** The column [Date_Diff] of a partition. *)
Definition date_diffs (p : DataFrame) : list (option Z) :=
  zip_with datediff (Date <$> p) (lag_Date p).

(** Every entry of the list other than [Some 0] is followed by a [Some 0]. *)
Fixpoint zero_follows (l : list (option Z)) : Prop :=
  match l with
  | [] => True
  | x :: l' => (x ≠ Some 0 → head l' = Some (Some 0)) ∧ zero_follows l'
  end.

(** The differences of the dates of the rows, the first one from [prev]. *)
Fixpoint diffs_from (prev : option date) (p : DataFrame) : list (option Z) :=
  match p with
  | [] => []
  | r :: p' => datediff (Date r) prev :: diffs_from (Date r) p'
  end.

(** ** Missing values (lines 159-164) *)

(** A long after an addition: Spark's [Add] wraps around. *)
Definition wrap64 (x : Z) : Z := (x + 2 ^ 63) mod 2 ^ 64 - 2 ^ 63.

(** [sum] of an integer column: a long, NULL until the first non-null
    value. *)
Definition sql_sum_long (vals : list (option Z)) : option Z :=
  foldl (λ acc v, match v with
                  | None => acc
                  | Some x => Some (wrap64 (default 0 acc + x))
                  end) None vals.

(** [col(c).isNull()] for a column of the frame; [Stock] is not nullable. *)
Definition isNull (c : string) (r : Row) : bool :=
  if decide (c = "Date") then bool_decide (Date r = None)
  else if decide (c = "Stock") then false
  else bool_decide (named_col c r = None).

(** [sum(col(c).isNull().cast("int"))] over the frame. *)
Definition missing (c : string) (df : DataFrame) : option Z :=
  sql_sum_long ((λ r, Some (Z.b2z (isNull c r))) <$> df).

(** Lines 159-164: the row that is shown; [columns] is [df.columns]. *)
Definition count_missing_values (columns : list string) (df : DataFrame)
  : list (string * option Z) :=
  (λ c, ("missing_" +:+ c, missing c df)) <$> columns.

(** The rows of the frame whose column [c] is NULL. *)
Definition nulls (c : string) (df : DataFrame) : DataFrame :=
  filter (λ r, isNull c r = true) df.

(** [combined_df.columns] where the notebook calls [count_missing_values]:
    the schema's columns, then the calculated ones. *)
Definition notebook_columns : list string :=
  ["Date"; "Adj Close"; "Close"; "High"; "Low"; "Open"; "Volume"; "Stock";
   "Prev_Close"; "Daily_Return"; "Moving_Avg_5"].

(** * Properties *)

(** ** Dataset Builder *)

Lemma elem_of_dropna (df : DataFrame) (r : Row) :
  r ∈ dropna df ↔ no_null r ∧ r ∈ df.
Proof. apply list_elem_of_filter. Qed.

Lemma elem_of_build_dataset (sources : list (string * DataFrame)) (r : Row) :
  r ∈ build_dataset sources ↔
  no_null r ∧ ∃ stock raw r0,
    (stock, raw) ∈ sources ∧ r0 ∈ raw ∧ r = with_Stock stock r0.
Proof.
  unfold build_dataset, union_all. rewrite elem_of_dropna.
  rewrite list_elem_of_fmap.
  split.
  - intros (Hnn & r' & -> & Hin). split; [exact Hnn|].
    apply list_elem_of_join in Hin as (l & Hr & Hl).
    apply list_elem_of_fmap in Hl as ([stock raw] & -> & Hsrc).
    apply list_elem_of_fmap in Hr as (r0 & -> & Hr0).
    by exists stock, raw, r0.
  - intros (Hnn & stock & raw & r0 & Hsrc & Hr0 & ->). split; [exact Hnn|].
    exists (with_Stock stock r0). split; [done|].
    apply list_elem_of_join. exists (with_Stock stock <$> raw). split.
    + by apply list_elem_of_fmap_2.
    + apply list_elem_of_fmap. by exists (stock, raw).
Qed.

(** C9: the built Dataset holds no null in any column; a source row whose
    Adj Close is null is absent from it whatever its other fields hold; and
    a source row without any null is kept. *)
Theorem dropna_drops_null_Adj_Close (sources : list (string * DataFrame)) :
  (∀ r, r ∈ build_dataset sources → no_null r) ∧
  (∀ stock raw r, (stock, raw) ∈ sources → r ∈ raw →
     Adj_Close r = None → with_Stock stock r ∉ build_dataset sources) ∧
  (∀ stock raw r, (stock, raw) ∈ sources → r ∈ raw →
     no_null r → with_Stock stock r ∈ build_dataset sources).
Proof.
  split; [|split].
  - intros r Hr. by apply elem_of_build_dataset in Hr as [? _].
  - intros stock raw r _ _ Hadj Hin.
    apply elem_of_build_dataset in Hin as [Hnn _].
    destruct Hnn as (_ & [x Hx] & _). simpl in Hx. congruence.
  - intros stock raw r Hsrc Hr Hnn. apply elem_of_build_dataset. split.
    + exact Hnn.
    + by exists stock, raw, r.
Qed.

Lemma dropna_drops_null_Adj_Close_witness :
  with_Stock "AAPL" row_null_Adj_Close
    ∉ build_dataset [("AAPL", [row_null_Adj_Close])].
Proof.
  apply (proj1 (proj2 (dropna_drops_null_Adj_Close
                         [("AAPL", [row_null_Adj_Close])]))
           "AAPL" [row_null_Adj_Close] row_null_Adj_Close).
  - apply list_elem_of_singleton. reflexivity.
  - apply list_elem_of_singleton. reflexivity.
  - reflexivity.
Defined.

(** ** Best-Performer Selector: the arguments *)

Lemma py_int_ValueError (s : string) (e : exn) :
  py_int s = inl e → ∃ msg, e = ValueError msg.
Proof.
  unfold py_int, from_option. intros H.
  repeat case_match; simplify_eq; eauto.
Qed.

Lemma unpack3_ints_ValueError (parts : list string) (e : exn) :
  unpack3_ints parts = inl e → ∃ msg, e = ValueError msg.
Proof.
  unfold unpack3_ints. intros H.
  repeat (case_match; simplify_eq/=); eauto using py_int_ValueError.
Qed.

Lemma unpack3_ints_inr (s : string) (y m d : Z) :
  unpack3_ints (py_split "-"%char s) = inr (y, m, d) ↔ three_ints s y m d.
Proof.
  unfold three_ints, unpack3_ints. split.
  - intros H. repeat (case_match; simplify_eq/=). eauto 10.
  - intros (a & b & c & -> & Ha & Hb & Hc). by rewrite Ha, Hb, Hc.
Qed.

(** C6: a period other than "month" and "year" makes [best_return_rate]
    raise a ValueError, whatever the frame and the start date; when the
    start date is well formed it is the one of line 458. *)
Theorem best_return_rate_invalid_period
    (df : DataFrame) (start_date period : string) :
  period ≠ "month" → period ≠ "year" →
  (∃ msg, best_return_rate df start_date period = inl (ValueError msg)) ∧
  (∀ y m d, three_ints start_date y m d →
     best_return_rate df start_date period
     = inl (ValueError "Invalid period. Choose 'month' or 'year'.")).
Proof.
  intros Hm Hy. unfold best_return_rate. split.
  - destruct (unpack3_ints _) as [e|[[y m] d]] eqn:Hp.
    + apply unpack3_ints_ValueError in Hp as [msg ->]. eauto.
    + rewrite !decide_False by done. eauto.
  - intros y m d Hp. apply unpack3_ints_inr in Hp. rewrite Hp.
    by rewrite !decide_False.
Qed.

Lemma best_return_rate_invalid_period_witness :
  (∃ msg, best_return_rate [] "2020-01-01" "quarter" = inl (ValueError msg)) ∧
  (∀ y m d, three_ints "2020-01-01" y m d →
     best_return_rate [] "2020-01-01" "quarter"
     = inl (ValueError "Invalid period. Choose 'month' or 'year'.")).
Proof.
  apply (best_return_rate_invalid_period [] "2020-01-01" "quarter").
  - discriminate.
  - discriminate.
Defined.

(** C10: the day of the start date is parsed and dropped.  Two start dates
    that split into three integers with the same year, and the same month
    when the period is "month", give the same result on the same frame; a
    start date that does not split into three integers makes the call raise
    one ValueError, the same for every frame and every period. *)
Theorem best_return_rate_ignores_day
    (df : DataFrame) (s1 s2 period : string) (y m1 d1 m2 d2 : Z) :
  (three_ints s1 y m1 d1 → three_ints s2 y m2 d2 →
   (period = "month" → m1 = m2) →
   best_return_rate df s1 period = best_return_rate df s2 period) ∧
  ((¬ ∃ y' m' d', three_ints s1 y' m' d') →
   ∃ msg, ∀ df' period',
     best_return_rate df' s1 period' = inl (ValueError msg)).
Proof.
  split.
  - intros H1 H2 Hm. unfold best_return_rate.
    apply unpack3_ints_inr in H1, H2. rewrite H1, H2.
    destruct (decide (period = "month")) as [Hp|Hp]; [|done].
    by rewrite (Hm Hp).
  - intros Hno. unfold best_return_rate.
    destruct (unpack3_ints (py_split "-" s1)) as [e|[[y' m'] d']] eqn:Hp.
    + apply unpack3_ints_ValueError in Hp as [msg ->]. by exists msg.
    + exfalso. apply Hno. exists y', m', d'. by apply unpack3_ints_inr.
Qed.

Lemma three_ints_2020_01_05 : three_ints "2020-01-05" 2020 1 5.
Proof. exists "2020", "01", "05". repeat split; reflexivity. Qed.

Lemma three_ints_2020_01_31 : three_ints "2020-01-31" 2020 1 31.
Proof. exists "2020", "01", "31". repeat split; reflexivity. Qed.

Lemma best_return_rate_ignores_day_witness :
  best_return_rate three_days "2020-01-07" "month"
  = best_return_rate three_days "2020-01-31" "month"
  ∧ best_return_rate three_days "2020-01-31" "month"
    = inr [mkAgg "AAPL" january_2020 (Some 9%R) (Some 11%R)
                 (return_rate_expr (Some 9%R) (Some 11%R))].
Proof.
  split; [|vm_compute; reflexivity].
  apply (proj1 (best_return_rate_ignores_day
                  three_days "2020-01-07" "2020-01-31" "month" 2020 1 7 1 31)).
  - exists "2020", "01", "07". repeat split; reflexivity.
  - exact three_ints_2020_01_31.
  - reflexivity.
Defined.

(** ** Chronological order and the window partitions *)

Lemma date_leb_total (a b : date) : date_leb a b = false → date_leb b a = true.
Proof. unfold date_leb. Zbool; (done || lia). Qed.

Lemma date_leb_trans (a b c : date) :
  date_leb a b = true → date_leb b c = true → date_leb a c = true.
Proof. unfold date_leb. Zbool; (done || lia). Qed.

Lemma date_leb_refl (a : date) : date_leb a a = true.
Proof. unfold date_leb. Zbool; (done || lia). Qed.

Lemma odate_leb_total (a b : option date) :
  odate_leb a b = false → odate_leb b a = true.
Proof. destruct a, b; simpl; auto using date_leb_total. Qed.

Lemma odate_leb_trans (a b c : option date) :
  odate_leb a b = true → odate_leb b c = true → odate_leb a c = true.
Proof. destruct a, b, c; simpl; eauto using date_leb_trans; done. Qed.

Lemma insert_by_date_Permutation (r : Row) (l : DataFrame) :
  insert_by_date r l ≡ₚ r :: l.
Proof.
  induction l as [|y l IH]; simpl; [done|].
  destruct (odate_leb _ _); [done|]. rewrite IH. apply Permutation_swap.
Qed.

Lemma orderBy_Date_Permutation (df : DataFrame) : orderBy_Date df ≡ₚ df.
Proof.
  induction df as [|r df IH]; simpl; [done|].
  by rewrite insert_by_date_Permutation, IH.
Qed.

Lemma insert_by_date_chronological (r : Row) (l : DataFrame) :
  chronological l → chronological (insert_by_date r l).
Proof.
  unfold chronological. induction 1 as [|y l Hl IH Hy]; simpl.
  - repeat constructor.
  - destruct (odate_leb (Date r) (Date y)) eqn:E.
    + constructor; [by constructor|]. constructor; [done|].
      eapply Forall_impl; [exact Hy|]. intros z Hz.
      unfold not_later in *. eauto using odate_leb_trans.
    + constructor; [done|].
      rewrite insert_by_date_Permutation. constructor; [|done].
      by apply odate_leb_total.
Qed.

Lemma orderBy_Date_chronological (df : DataFrame) :
  chronological (orderBy_Date df).
Proof.
  induction df as [|r df IH]; simpl.
  - constructor.
  - by apply insert_by_date_chronological.
Qed.

(** Sorting a frame already in chronological order leaves it as it is. *)
Lemma orderBy_Date_id (df : DataFrame) :
  chronological df → orderBy_Date df = df.
Proof.
  unfold chronological. induction 1 as [|r l Hl IH Hr]; simpl; [done|].
  rewrite IH. destruct l as [|y l]; simpl; [done|].
  apply Forall_cons in Hr as [Hy _]. unfold not_later in Hy. by rewrite Hy.
Qed.

Lemma orderBy_Date_length (df : DataFrame) :
  length (orderBy_Date df) = length df.
Proof. apply Permutation_length, orderBy_Date_Permutation. Qed.

Lemma orderBy_Date_Forall (P : Row → Prop) (df : DataFrame) :
  Forall P df → Forall P (orderBy_Date df).
Proof. intros H. by rewrite orderBy_Date_Permutation. Qed.

(** *** Groups *)

Lemma mjoin_cons {A} (l : list A) (ls : list (list A)) :
  mjoin (l :: ls) = l ++ mjoin ls.
Proof. reflexivity. Qed.

Section filter.
Context {A : Type} (P : A → Prop) `{!∀ x, Decision (P x)}.

Lemma filter_Forall_id (l : list A) : Forall P l → filter P l = l.
Proof.
  induction 1 as [|x l Hx _ IH]; [done|].
  by rewrite filter_cons_True, IH.
Qed.

Lemma filter_Forall_nil (l : list A) : Forall (λ x, ¬ P x) l → filter P l = [].
Proof.
  induction 1 as [|x l Hx _ IH]; [done|].
  by rewrite filter_cons_False.
Qed.
End filter.

Section distinct.
Context `{EqDecision K}.

Lemma elem_of_distinct (l : list K) (k : K) : k ∈ distinct l ↔ k ∈ l.
Proof.
  induction l as [|a l IH]; simpl; [done|].
  rewrite !elem_of_cons, list_elem_of_filter, IH.
  destruct (decide (k = a)); tauto.
Qed.

Lemma NoDup_distinct (l : list K) : NoDup (distinct l).
Proof.
  induction l as [|a l IH]; simpl; constructor.
  - rewrite list_elem_of_filter. tauto.
  - by apply NoDup_filter.
Qed.

(** The keys of a run of rows that all carry key [a], put before [l]. *)
Lemma distinct_run (a : K) (run l : list K) :
  run ≠ [] → Forall (λ k, k = a) run →
  distinct (run ++ l) = a :: filter (λ k, k ≠ a) (distinct l).
Proof.
  intros Hne Hrun.
  assert (Hfilter : ∀ run', Forall (λ k, k = a) run' →
            filter (λ k, k ≠ a) (distinct (run' ++ l))
            = filter (λ k, k ≠ a) (distinct l)).
  { induction 1 as [|x run' -> _ IH]; simpl; [done|].
    rewrite filter_cons_False by tauto.
    rewrite list_filter_filter, <- IH.
    apply list_filter_iff. tauto. }
  destruct Hrun as [|x run' -> Hrun']; [done|]. simpl.
  by rewrite Hfilter.
Qed.
End distinct.

Section groups.
Context `{EqDecision K} (key : Row → K).

(** Groups listed by distinct keys, each holding rows of its key only:
    filtering the concatenation on a key gives back that key's group. *)
Lemma filter_join_groups (g : K → DataFrame) (ks : list K) (k : K) :
  NoDup ks → (∀ k', k' ∈ ks → Forall (λ r, key r = k') (g k')) →
  filter (λ r, key r = k) (mjoin (g <$> ks))
  = if decide (k ∈ ks) then g k else [].
Proof.
  intros Hnd. induction Hnd as [|a ks Ha Hnd IH]; intros Hg.
  - case_decide as Hk; [|done]. by apply elem_of_nil in Hk.
  - rewrite fmap_cons, mjoin_cons, filter_app, IH.
    2:{ intros k' Hk'. apply Hg. by apply list_elem_of_further. }
    specialize (Hg a (list_elem_of_here _ _)).
    destruct (decide (a = k)) as [->|Hak].
    + rewrite filter_Forall_id by apply Hg.
      rewrite (decide_False (P := k ∈ ks)) by done.
      rewrite (decide_True (P := k ∈ k :: ks)) by apply list_elem_of_here.
      apply app_nil_r.
    + rewrite filter_Forall_nil.
      2:{ eapply Forall_impl; [apply Hg|]. simpl. congruence. }
      rewrite app_nil_l. destruct (decide (k ∈ ks)) as [Hk|Hk].
      * rewrite decide_True; [done|]. by apply list_elem_of_further.
      * rewrite decide_False; [done|]. rewrite elem_of_cons.
        intros [Heq|Hin]; [by apply Hak|by apply Hk].
Qed.

(** ... and the distinct keys of the concatenation are the listed keys. *)
Lemma distinct_join_groups (g : K → DataFrame) (ks : list K) :
  NoDup ks → (∀ k', k' ∈ ks → g k' ≠ [] ∧ Forall (λ r, key r = k') (g k')) →
  distinct (key <$> mjoin (g <$> ks)) = ks.
Proof.
  intros Hnd. induction Hnd as [|a ks Ha Hnd IH]; intros Hg; [done|].
  destruct (Hg a) as [Hne Hall]; [apply list_elem_of_here|].
  rewrite fmap_cons, mjoin_cons, fmap_app, (distinct_run a).
  - rewrite IH.
    + f_equal. apply filter_Forall_id, Forall_forall. congruence.
    + intros k' Hk'. apply Hg. by apply list_elem_of_further.
  - by destruct (g a).
  - by apply Forall_fmap.
Qed.

Lemma groupBy_unfold (df : DataFrame) :
  groupBy key df
  = (λ k, (k, filter (λ r, key r = k) df)) <$> distinct (key <$> df).
Proof. reflexivity. Qed.

(** A group of [groupBy] is not empty. *)
Lemma groupBy_group_nonempty (df : DataFrame) (k : K) :
  k ∈ distinct (key <$> df) → filter (λ r, key r = k) df ≠ [].
Proof.
  rewrite elem_of_distinct, list_elem_of_fmap. intros (r & -> & Hr) Hnil.
  by eapply (filter_nil_not_elem_of _ _ r) in Hnil.
Qed.
End groups.

(** *** The layout of a windowed frame *)

Lemma window_spec_unfold (df : DataFrame) :
  window_spec df = (λ S, partition_of S df) <$> symbols df.
Proof.
  unfold window_spec, groupBy. by rewrite <- list_fmap_compose.
Qed.

Lemma partition_of_Stock (S : string) (df : DataFrame) :
  Forall (λ r, Stock r = S) (partition_of S df).
Proof.
  apply orderBy_Date_Forall, Forall_forall. intros r Hr.
  by apply list_elem_of_filter in Hr as [? _].
Qed.

Lemma partition_of_nonempty (S : string) (df : DataFrame) :
  S ∈ symbols df → partition_of S df ≠ [].
Proof.
  intros HS Hnil. apply (groupBy_group_nonempty Stock df S HS).
  apply (f_equal length) in Hnil. unfold partition_of in Hnil.
  rewrite orderBy_Date_length in Hnil. by apply nil_length_inv.
Qed.

Lemma partition_of_not_symbol (S : string) (df : DataFrame) :
  S ∉ symbols df → partition_of S df = [].
Proof.
  intros HS. unfold partition_of. rewrite filter_Forall_nil; [done|].
  apply Forall_forall. intros r Hr <-. apply HS.
  apply elem_of_distinct. by apply list_elem_of_fmap_2.
Qed.

Lemma laid_out_partitions (df : DataFrame) :
  laid_out (λ S, partition_of S df) (symbols df).
Proof.
  split; [apply NoDup_distinct|]. intros S HS. split; [|split].
  - by apply partition_of_nonempty.
  - apply partition_of_Stock.
  - apply orderBy_Date_chronological.
Qed.

Lemma filter_laid_out (g : string → DataFrame) (ks : list string) (S : string) :
  laid_out g ks →
  filter (λ r, Stock r = S) (mjoin (g <$> ks)) = if decide (S ∈ ks) then g S else [].
Proof.
  intros [Hnd Hg]. apply filter_join_groups; [done|]. intros k Hk.
  by destruct (Hg k Hk) as (_ & ? & _).
Qed.

Lemma symbols_laid_out (g : string → DataFrame) (ks : list string) :
  laid_out g ks → symbols (mjoin (g <$> ks)) = ks.
Proof.
  intros [Hnd Hg]. apply distinct_join_groups; [done|]. intros k Hk.
  by destruct (Hg k Hk) as (? & ? & _).
Qed.

(** Windowing a frame that is laid out finds the very same partitions. *)
Lemma window_spec_laid_out (g : string → DataFrame) (ks : list string) :
  laid_out g ks → window_spec (mjoin (g <$> ks)) = g <$> ks.
Proof.
  intros Hl. rewrite window_spec_unfold, (symbols_laid_out _ _ Hl).
  apply list_fmap_ext. intros i S HS.
  unfold partition_of. rewrite (filter_laid_out _ _ _ Hl).
  apply list_elem_of_lookup_2 in HS. rewrite decide_True by done.
  apply orderBy_Date_id. by destruct Hl as [_ Hg]; destruct (Hg S HS) as (_ & _ & ?).
Qed.

(** *** Derived columns leave the schema columns alone *)

Lemma raw_with_derived (name : string) (v : option R) (r : Row) :
  raw (with_derived name v r) = raw r.
Proof. reflexivity. Qed.

Lemma raw_Stock (r : Row) : Stock (raw r) = Stock r.
Proof. reflexivity. Qed.

Lemma raw_Date (r : Row) : Date (raw r) = Date r.
Proof. reflexivity. Qed.

Lemma raw_col (f : field) (r : Row) : col f (raw r) = col f r.
Proof. by destruct f. Qed.

Lemma fmap_mjoin {A B} (f : A → B) (ls : list (list A)) :
  f <$> mjoin ls = mjoin (fmap f <$> ls).
Proof.
  induction ls as [|l ls IH]; [done|].
  by rewrite fmap_cons, !mjoin_cons, fmap_app, IH.
Qed.

Section same_raw.
Variables p p' : DataFrame.
Hypothesis Hraw : raw <$> p' = raw <$> p.

Lemma same_raw_length : length p' = length p.
Proof using Hraw. by rewrite <- (length_fmap raw p'), Hraw, length_fmap. Qed.

Lemma same_raw_via (A : Type) (f : Row → A) :
  (∀ r, f (raw r) = f r) → f <$> p' = f <$> p.
Proof using Hraw.
  intros Hf.
  rewrite <- (list_fmap_ext (f ∘ raw) f p') by (intros; apply Hf).
  rewrite <- (list_fmap_ext (f ∘ raw) f p) by (intros; apply Hf).
  by rewrite !list_fmap_compose, Hraw.
Qed.

Lemma same_raw_col (f : field) : col f <$> p' = col f <$> p.
Proof using Hraw. apply same_raw_via, raw_col. Qed.

Lemma same_raw_Close : Close <$> p' = Close <$> p.
Proof using Hraw. by apply same_raw_via. Qed.

Lemma same_raw_Forall_Stock (S : string) :
  Forall (λ r, Stock r = S) p → Forall (λ r, Stock r = S) p'.
Proof using Hraw.
  intros H. apply (Forall_fmap Stock (λ s, s = S)).
  rewrite (same_raw_via _ Stock) by done. by apply Forall_fmap.
Qed.
End same_raw.

Lemma chronological_dates (p : DataFrame) :
  chronological p
  ↔ StronglySorted (λ a b, odate_leb a b = true) (Date <$> p).
Proof.
  unfold chronological. split.
  - apply StronglySorted_fmap. by intros x y.
  - induction p as [|r p IH]; csimpl; [constructor|].
    intros Hs. apply StronglySorted_inv in Hs as [Hp Hr].
    constructor; [by apply IH|]. by apply Forall_fmap in Hr.
Qed.

Lemma same_raw_chronological (p p' : DataFrame) :
  raw <$> p' = raw <$> p → chronological p → chronological p'.
Proof.
  intros Hraw. rewrite !chronological_dates.
  by rewrite (same_raw_via _ _ Hraw _ Date).
Qed.

Lemma raw_zip_with_derived (name : string) (vs : list (option R)) (p : DataFrame) :
  (length p ≤ length vs)%nat →
  raw <$> zip_with (with_derived name) vs p = raw <$> p.
Proof.
  revert vs. induction p as [|r p IH]; intros [|v vs] Hlen; simpl in *;
    try done; try lia.
  csimpl. by rewrite IH by lia.
Qed.

(** Decorating each partition of a laid-out frame keeps it laid out. *)
Lemma laid_out_decorate (h : DataFrame → DataFrame)
    (g : string → DataFrame) (ks : list string) :
  (∀ p, raw <$> h p = raw <$> p) → laid_out g ks → laid_out (h ∘ g) ks.
Proof.
  intros Hh [Hnd Hg]. split; [done|]. intros S HS.
  destruct (Hg S HS) as (Hne & HStock & Hchron). simpl. split; [|split].
  - intros Hnil. apply Hne. apply nil_length_inv.
    by rewrite <- (same_raw_length _ _ (Hh (g S))), Hnil.
  - by apply (same_raw_Forall_Stock _ _ (Hh (g S))).
  - by apply (same_raw_chronological _ _ (Hh (g S))).
Qed.

(** *** Windowed columns, partition by partition *)

Lemma per_row_lag (c : Row → option R) : per_row (lag c).
Proof.
  intros p. unfold lag. rewrite length_take. simpl. rewrite length_fmap. lia.
Qed.

Lemma per_row_avg_over (c : Row → option R) (lo hi : Z) :
  per_row (avg_over c lo hi).
Proof. intros p. apply length_imap. Qed.

Lemma raw_over (name : string) (fn : DataFrame → list (option R)) (p : DataFrame) :
  per_row fn → raw <$> over name fn p = raw <$> p.
Proof. intros Hfn. apply raw_zip_with_derived. by rewrite Hfn. Qed.

Lemma raw_fmap_with_derived (name : string) (e : Row → option R) (p : DataFrame) :
  raw <$> ((λ r, with_derived name (e r) r) <$> p) = raw <$> p.
Proof. rewrite <- list_fmap_compose. by apply list_fmap_ext. Qed.

Lemma withColumn_over_unfold (name : string)
    (fn : DataFrame → list (option R)) (df : DataFrame) :
  withColumn_over name fn df
  = mjoin ((over name fn ∘ (λ S, partition_of S df)) <$> symbols df).
Proof.
  unfold withColumn_over. rewrite window_spec_unfold.
  by rewrite <- list_fmap_compose.
Qed.

Lemma stage_withColumn_over (name : string) (fn : DataFrame → list (option R)) :
  stage (withColumn_over name fn) (over name fn).
Proof.
  intros g ks Hl. unfold withColumn_over.
  rewrite (window_spec_laid_out _ _ Hl). by rewrite <- list_fmap_compose.
Qed.

Lemma stage_withColumn (name : string) (e : Row → option R) :
  stage (withColumn name e) (fmap (λ r, with_derived name (e r) r)).
Proof.
  intros g ks _. unfold withColumn.
  by rewrite fmap_mjoin, <- list_fmap_compose.
Qed.

Lemma stage_compose (T1 h1 T2 h2 : DataFrame → DataFrame) :
  (∀ p, raw <$> h1 p = raw <$> p) →
  stage T1 h1 → stage T2 h2 → stage (T2 ∘ T1) (h2 ∘ h1).
Proof.
  intros Hraw H1 H2 g ks Hl. simpl. rewrite (H1 _ _ Hl).
  by rewrite (H2 _ _ (laid_out_decorate h1 g ks Hraw Hl)).
Qed.

(** The rows of symbol [S] in a frame that a stage has laid out. *)
Lemma filter_Stock_mjoin (h : DataFrame → DataFrame) (df : DataFrame) (S : string) :
  (∀ p, raw <$> h p = raw <$> p) →
  filter (λ r, Stock r = S)
         (mjoin ((h ∘ (λ S, partition_of S df)) <$> symbols df))
  = h (partition_of S df).
Proof.
  intros Hraw.
  rewrite (filter_laid_out _ _ S
             (laid_out_decorate h _ _ Hraw (laid_out_partitions df))).
  case_decide as HS; [done|]. simpl.
  rewrite (partition_of_not_symbol _ _ HS). symmetry. apply nil_length_inv.
  by rewrite (same_raw_length _ _ (Hraw [])).
Qed.

(** ** Window Aggregator: previous close and daily return *)

Lemma raw_part_Prev_Close_Daily_Return (p : DataFrame) :
  raw <$> part_Prev_Close_Daily_Return p = raw <$> p.
Proof.
  unfold part_Prev_Close_Daily_Return.
  rewrite raw_fmap_with_derived. apply raw_over, per_row_lag.
Qed.

Lemma add_Prev_Close_Daily_Return_unfold (df : DataFrame) :
  add_Prev_Close_Daily_Return df
  = mjoin ((part_Prev_Close_Daily_Return ∘ (λ S, partition_of S df))
             <$> symbols df).
Proof.
  unfold add_Prev_Close_Daily_Return. rewrite withColumn_over_unfold.
  rewrite (stage_withColumn _ _ _ _
             (laid_out_decorate _ _ _
                (λ p, raw_over "Prev_Close" (lag Close) p (per_row_lag Close))
                (laid_out_partitions df))).
  done.
Qed.

Lemma dcol_with_derived (name name' : string) (v : option R) (r : Row) :
  dcol name' (with_derived name v r)
  = if decide (name = name') then v else dcol name' r.
Proof.
  unfold dcol, with_derived. simpl. rewrite lookup_insert.
  by case_decide.
Qed.

(** A row of [part_Prev_Close_Daily_Return p], by its index. *)
Lemma part_Prev_Close_Daily_Return_lookup (p : DataFrame) (i : nat) (r : Row) :
  part_Prev_Close_Daily_Return p !! i = Some r →
  ∃ r0 v, p !! i = Some r0 ∧ lag Close p !! i = Some v ∧
    raw r = raw r0 ∧
    dcol "Prev_Close" r = v ∧
    dcol "Daily_Return" r = sql_div (sql_sub (Close r0) v) v.
Proof.
  unfold part_Prev_Close_Daily_Return, over. rewrite list_lookup_fmap.
  rewrite lookup_zip_with. intros Hr.
  destruct (lag Close p !! i) as [v|] eqn:Hv; [|done].
  destruct (p !! i) as [r0|] eqn:Hr0; [|done].
  simplify_eq/=. exists r0, v. rewrite !dcol_with_derived. simpl. done.
Qed.

Lemma lag_lookup_0 (c : Row → option R) (p : DataFrame) (v : option R) :
  lag c p !! 0%nat = Some v → v = None.
Proof. unfold lag. destruct p; simpl; congruence. Qed.

Lemma lag_lookup_S (c : Row → option R) (p : DataFrame) (i : nat) (v : option R) :
  lag c p !! S i = Some v → ∃ r', p !! i = Some r' ∧ v = c r'.
Proof.
  unfold lag. intros H. apply lookup_take_Some in H as [H Hi].
  simpl in H. rewrite list_lookup_fmap in H.
  destruct (p !! i) as [r'|]; simplify_eq/=. eauto.
Qed.

Lemma sql_div_None (a b : option R) :
  is_Some a → (sql_div (sql_sub a b) b = None ↔ b = None ∨ b = Some 0%R).
Proof.
  intros [x ->]. destruct b as [y|]; simpl; [|tauto].
  case_decide as Hy.
  - subst. tauto.
  - split; [done|]. intros [?|?]; congruence.
Qed.

Lemma sql_div_Some (x y : R) :
  y ≠ 0%R → sql_div (sql_sub (Some x) (Some y)) (Some y) = Some ((x - y) / y)%R.
Proof. intros Hy. simpl. by rewrite decide_False. Qed.

(** C4: in the frame of lines 83-87, computed on a Dataset without nulls,
    the rows of a symbol are that symbol's partition in date order;
    the first of them has Prev_Close and Daily_Return NULL, every later one
    has the Close of the row before it as Prev_Close; and on every row
    Daily_Return is NULL exactly when Prev_Close is NULL or zero, and is
    (Close - Prev_Close) / Prev_Close otherwise. *)
Theorem Prev_Close_Daily_Return_null (df : DataFrame) (sym : string) :
  let part := filter (λ r, Stock r = sym)
                (add_Prev_Close_Daily_Return (dropna df)) in
  raw <$> part = raw <$> partition_of sym (dropna df) ∧
  chronological part ∧
  (∀ r, head part = Some r →
     dcol "Prev_Close" r = None ∧ dcol "Daily_Return" r = None) ∧
  (∀ i r' r, part !! i = Some r' → part !! (S i) = Some r →
     dcol "Prev_Close" r = Close r') ∧
  (∀ r, r ∈ part →
     (dcol "Daily_Return" r = None
      ↔ dcol "Prev_Close" r = None ∨ dcol "Prev_Close" r = Some 0%R) ∧
     ∃ c, Close r = Some c ∧
       ∀ pc, dcol "Prev_Close" r = Some pc → pc ≠ 0%R →
         dcol "Daily_Return" r = Some ((c - pc) / pc)%R).
Proof.
  intros part. subst part. rewrite add_Prev_Close_Daily_Return_unfold.
  rewrite (filter_Stock_mjoin _ _ _ raw_part_Prev_Close_Daily_Return).
  set (p := partition_of sym (dropna df)).
  assert (Hclose : ∀ r0, r0 ∈ p → is_Some (Close r0)).
  { intros r0 Hr0. unfold p, partition_of in Hr0.
    rewrite orderBy_Date_Permutation in Hr0.
    apply list_elem_of_filter in Hr0 as [_ Hr0].
    apply elem_of_dropna in Hr0 as [Hnn _]. apply Hnn. }
  split; [apply raw_part_Prev_Close_Daily_Return|].
  split.
  { apply (same_raw_chronological p); [apply raw_part_Prev_Close_Daily_Return|].
    apply orderBy_Date_chronological. }
  split; [|split].
  - intros r Hr. rewrite head_lookup in Hr.
    apply part_Prev_Close_Daily_Return_lookup in Hr
      as (r0 & v & _ & Hv & _ & -> & ->).
    apply lag_lookup_0 in Hv as ->. done.
  - intros i r' r Hr' Hr.
    apply part_Prev_Close_Daily_Return_lookup in Hr
      as (r0 & v & _ & Hv & _ & -> & _).
    apply part_Prev_Close_Daily_Return_lookup in Hr'
      as (r0' & v' & Hr0' & _ & Hraw' & _ & _).
    apply lag_lookup_S in Hv as (r1 & Hr1 & ->).
    apply (f_equal Close) in Hraw'. simpl in Hraw'.
    rewrite Hr0' in Hr1. congruence.
  - intros r Hr. apply list_elem_of_lookup in Hr as [i Hr].
    apply part_Prev_Close_Daily_Return_lookup in Hr
      as (r0 & v & Hr0 & _ & Hraw & -> & ->).
    apply (f_equal Close) in Hraw. simpl in Hraw. rewrite Hraw.
    destruct (Hclose r0) as [c Hc]; [by eapply list_elem_of_lookup_2|].
    split; [apply sql_div_None; eauto|].
    exists c. split; [done|]. intros pc -> Hpc. rewrite Hc.
    by apply sql_div_Some.
Qed.

Lemma Prev_Close_Daily_Return_null_witness :
  ∃ r, head (filter (λ r, Stock r = "AAPL")
               (add_Prev_Close_Daily_Return (dropna three_days))) = Some r
       ∧ Close r = Some 10%R
       ∧ dcol "Prev_Close" r = None ∧ dcol "Daily_Return" r = None.
Proof.
  destruct (Prev_Close_Daily_Return_null three_days "AAPL")
    as (_ & _ & Hhead & _).
  eexists. split; [vm_compute; reflexivity|].
  split; [reflexivity|]. apply Hhead. vm_compute. reflexivity.
Defined.

(** ** Period Aggregator: first and last close *)

Lemma chronological_filter (P : Row → Prop) `{!∀ r, Decision (P r)}
    (df : DataFrame) :
  chronological df → chronological (filter P df).
Proof.
  unfold chronological. induction 1 as [|r l Hl IH Hr]; [constructor|].
  rewrite filter_cons. case_decide; [|done]. constructor; [done|].
  apply Forall_forall. intros y Hy. apply list_elem_of_filter in Hy as [_ Hy].
  rewrite Forall_forall in Hr. by apply Hr.
Qed.

Lemma elem_of_return_rate_by (period : Row → list (option Z))
    (df : DataFrame) (a : PeriodAggregate) :
  a ∈ return_rate_by period df ↔
  (∃ r, r ∈ df ∧ Stock r = g_Stock a ∧ period r = g_period a) ∧
  let g := group_rows period df (g_Stock a) (g_period a) in
  First_Close a = first Close g ∧ Last_Close a = last Close g ∧
  Return_Rate a = return_rate_expr (First_Close a) (Last_Close a).
Proof.
  unfold return_rate_by, groupBy, group_rows.
  rewrite <- list_fmap_compose, list_elem_of_fmap. split.
  - intros ([sym key] & -> & Hk). simpl.
    apply elem_of_distinct, list_elem_of_fmap in Hk as (r & Hr & Hin).
    split; [|done]. exists r. by simplify_eq.
  - intros [(r & Hin & HS & Hp) (Hf & Hl & Hrate)].
    exists (g_Stock a, g_period a). split.
    + destruct a; simpl in *. by rewrite Hrate, Hf, Hl.
    + apply elem_of_distinct, list_elem_of_fmap. exists r.
      by rewrite HS, Hp.
Qed.

Lemma group_rows_chronological (period : Row → list (option Z))
    (df : DataFrame) (sym : string) (key : list (option Z)) :
  chronological_per_symbol df → chronological (group_rows period df sym key).
Proof.
  intros Hdf. unfold group_rows.
  erewrite (list_filter_iff _ (λ r, period r = key ∧ Stock r = sym)).
  - rewrite <- list_filter_filter. apply chronological_filter, Hdf.
  - intros r. split; [by intros [= -> ->]|by intros [-> ->]].
Qed.

Lemma return_rate_expr_Some (f l : R) :
  f ≠ 0%R → return_rate_expr (Some f) (Some l) = Some ((l - f) / f * 100)%R.
Proof. intros Hf. unfold return_rate_expr. simpl. by rewrite decide_False. Qed.

(** C1, as the code has it: every (symbol, period key) present in the frame
    has its row in the table; the row holds the close of the first and of
    the last row of the group in the order of the frame, and the rate
    (last - first) / first * 100 computed from them; when the rows of every
    symbol come in date order, these are the chronologically first and last
    closes. *)
Theorem first_last_in_frame_order
    (period : Row → list (option Z)) (df : DataFrame) :
  (∀ r, r ∈ df → ∃ a, a ∈ return_rate_by period df
                      ∧ g_Stock a = Stock r ∧ g_period a = period r) ∧
  (∀ a, a ∈ return_rate_by period df →
     let g := group_rows period df (g_Stock a) (g_period a) in
     g ≠ [] ∧
     First_Close a = first Close g ∧ Last_Close a = last Close g ∧
     Return_Rate a = return_rate_expr (First_Close a) (Last_Close a) ∧
     (∀ f l, First_Close a = Some f → Last_Close a = Some l → f ≠ 0%R →
        Return_Rate a = Some ((l - f) / f * 100)%R) ∧
     (chronological_per_symbol df →
        First_Close a = chronological_first Close g
        ∧ Last_Close a = chronological_last Close g)).
Proof.
  split.
  - intros r Hr.
    exists (let g := group_rows period df (Stock r) (period r) in
            mkAgg (Stock r) (period r) (first Close g) (last Close g)
                  (return_rate_expr (first Close g) (last Close g))).
    split; [|done]. apply elem_of_return_rate_by. simpl.
    split; [by exists r|done].
  - intros a Ha g.
    apply elem_of_return_rate_by in Ha as [(r & Hin & HS & Hp) (Hf & Hl & Hrate)].
    fold g in Hf, Hl. repeat split; try done.
    + intros Hnil. assert (Hrg : r ∈ g).
      { apply list_elem_of_filter. split; [by rewrite HS, Hp|done]. }
      rewrite Hnil in Hrg. by apply elem_of_nil in Hrg.
    + intros f l Hf' Hl' Hnz. rewrite Hrate, Hf', Hl'.
      by apply return_rate_expr_Some.
    + unfold chronological_first.
      by rewrite orderBy_Date_id by by apply group_rows_chronological.
    + unfold chronological_last.
      by rewrite orderBy_Date_id by by apply group_rows_chronological.
Qed.

(** C1 fails as stated: the monthly First_Close of [three_days] is 9, the
    close of the row that comes first, while the chronologically first close
    is 10; the Last_Close is 11 while the chronologically last close is 9. *)
Lemma first_close_not_chronological :
  let monthly := (calculate_return_rate three_days).1.2 in
  let g := group_rows by_Year_Month three_days "AAPL" january_2020 in
  monthly = [mkAgg "AAPL" january_2020 (Some 9%R) (Some 11%R)
                   (return_rate_expr (Some 9%R) (Some 11%R))] ∧
  chronological_first Close g = Some 10%R ∧
  chronological_last Close g = Some 9%R ∧
  Some 9%R ≠ chronological_first Close g ∧
  Some 11%R ≠ chronological_last Close g.
Proof.
  assert (Hf : chronological_first Close
                 (group_rows by_Year_Month three_days "AAPL" january_2020)
               = Some 10%R) by (vm_compute; reflexivity).
  assert (Hl : chronological_last Close
                 (group_rows by_Year_Month three_days "AAPL" january_2020)
               = Some 9%R) by (vm_compute; reflexivity).
  intros monthly g. subst monthly g. rewrite Hf, Hl.
  split; [vm_compute; reflexivity|].
  split; [reflexivity|]. split; [reflexivity|].
  split; intros [= H]; lra.
Qed.

Lemma three_days_in_order_chronological :
  chronological_per_symbol three_days_in_order.
Proof.
  intros sym. apply chronological_filter.
  repeat (constructor; [|repeat constructor]). constructor.
Qed.

Lemma first_last_in_frame_order_witness :
  let a := mkAgg "AAPL" january_2020 (Some 10%R) (Some 9%R)
                 (return_rate_expr (Some 10%R) (Some 9%R)) in
  let g := group_rows by_Year_Month three_days_in_order "AAPL" january_2020 in
  a ∈ return_rate_by by_Year_Month three_days_in_order ∧
  Return_Rate a = Some ((9 - 10) / 10 * 100)%R ∧
  First_Close a = chronological_first Close g ∧
  Last_Close a = chronological_last Close g.
Proof.
  intros a g.
  assert (Ha : a ∈ return_rate_by by_Year_Month three_days_in_order).
  { apply list_elem_of_singleton. vm_compute. reflexivity. }
  destruct (proj2 (first_last_in_frame_order by_Year_Month three_days_in_order)
              a Ha) as (_ & _ & _ & _ & Hrate & Hchron).
  split; [exact Ha|]. split.
  - apply (Hrate 10%R 9%R); [reflexivity|reflexivity|lra].
  - apply Hchron, three_days_in_order_chronological.
Defined.

(** ** Window Aggregator: moving average *)

Lemma rowsBetween_trailing {A} (n : Z) (p : list A) (i : nat) :
  0 < n → (i < length p)%nat →
  rowsBetween (- n + 1) 0 p i = trailing (Z.to_nat n) i p.
Proof.
  intros Hn Hi. unfold rowsBetween, trailing.
  rewrite take_drop_commute. f_equal; [lia|f_equal; lia].
Qed.







Lemma over_lookup (name : string) (fn : DataFrame → list (option R))
    (p : DataFrame) (i : nat) (r : Row) :
  over name fn p !! i = Some r →
  ∃ r0 v, p !! i = Some r0 ∧ fn p !! i = Some v ∧ r = with_derived name v r0.
Proof.
  unfold over. rewrite lookup_zip_with. intros H.
  destruct (fn p !! i) as [v|]; [|done].
  destruct (p !! i) as [r0|]; [|done]. simplify_eq/=. eauto.
Qed.



(** The calls of [calculate_moving_average] that return: the window starts
    at [lo] rows before the current one, and [lo] is [- num_points + 1] when
    the window length is a positive 32-bit integer. *)
Lemma calculate_moving_average_inr (df : DataFrame) (column_name : field)
    (num_points : Z) (out : DataFrame) :
  calculate_moving_average df column_name num_points = inr out →
  ∃ lo, lo ≤ 0 ∧ ∀ df',
    calculate_moving_average df' column_name num_points
    = inr (withColumn_over
             ("Moving_Avg_" +:+ field_name column_name +:+ "_"
              +:+ pretty num_points)
             (avg_over (col column_name) lo 0) df').
Proof.
  unfold calculate_moving_average. intros H.
  destruct (decide (¬ java_long _));
    [by destruct (decide (over_4300_digits _))|].
  destruct (decide (_ ∧ _)); [done|].
  destruct (decide (over_4300_digits _)); [done|].
  destruct (decide (_ ≤ 0)) as [Hlo|]; [|done].
  eexists. split; [exact Hlo|]. intros df'. reflexivity.
Qed.





(** ** Window Aggregator: running it again *)

Lemma lookup_same_raw {A} (f : Row → A) (q p : DataFrame) (i : nat) :
  raw <$> q = raw <$> p → f <$> q !! i = None ↔ f <$> p !! i = None.
Proof.
  intros Hraw. apply (f_equal (λ l, l !! i)) in Hraw.
  rewrite !list_lookup_fmap in Hraw.
  destruct (q !! i), (p !! i); simplify_eq/=; done.
Qed.

Lemma reads_raw_lag : reads_raw (lag Close).
Proof.
  intros q p Hraw. unfold lag.
  by rewrite (same_raw_length _ _ Hraw), (same_raw_Close _ _ Hraw).
Qed.

Lemma fmap_rowsBetween {A B} (f : A → B) (lo hi : Z) (p : list A) (i : nat) :
  f <$> rowsBetween lo hi p i = rowsBetween lo hi (f <$> p) i.
Proof. unfold rowsBetween. by rewrite fmap_take, fmap_drop, length_fmap. Qed.

Lemma avg_over_lookup (c : Row → option R) (lo hi : Z) (p : DataFrame) (i : nat) :
  avg_over c lo hi p !! i
  = (λ _, sql_avg (rowsBetween lo hi (c <$> p) i)) <$> p !! i.
Proof.
  unfold avg_over. rewrite list_lookup_imap.
  destruct (p !! i); simpl; [|done]. by rewrite fmap_rowsBetween.
Qed.

Lemma reads_raw_avg_over (c : Row → option R) (lo hi : Z) :
  (∀ r, c (raw r) = c r) → reads_raw (avg_over c lo hi).
Proof.
  intros Hc q p Hraw. apply list_eq. intros i.
  rewrite !avg_over_lookup, (same_raw_via _ _ Hraw _ c Hc).
  pose proof (lookup_same_raw (λ r : Row, r) q p i Hraw) as Hnone.
  destruct (q !! i), (p !! i); simpl in *; try done.
  - discriminate (proj2 Hnone eq_refl).
  - discriminate (proj1 Hnone eq_refl).
Qed.

Lemma with_derived_id (name : string) (v : option R) (r : Row) :
  derived r !! name = Some v → with_derived name v r = r.
Proof.
  intros Hv. destruct r. unfold with_derived. simpl in *.
  by rewrite insert_id.
Qed.

(** A partition whose rows already hold, under [name], the values [fn]
    gives for it is left as it is by [over name fn]. *)
Lemma over_id (name : string) (fn : DataFrame → list (option R)) (q : DataFrame) :
  (∀ i r, q !! i = Some r → ∃ v, fn q !! i = Some v ∧ derived r !! name = Some v) →
  over name fn q = q.
Proof.
  intros Hq. apply list_eq. intros i. unfold over.
  rewrite lookup_zip_with. destruct (q !! i) as [r|] eqn:Hr.
  - destruct (Hq i r Hr) as (v & -> & Hv). simpl.
    by rewrite (with_derived_id _ _ _ Hv).
  - by destruct (fn q !! i).
Qed.

Lemma withColumn_id (name : string) (e : Row → option R) (q : DataFrame) :
  (∀ r, r ∈ q → derived r !! name = Some (e r)) →
  (λ r, with_derived name (e r) r) <$> q = q.
Proof.
  intros Hq. rewrite <- (list_fmap_id q) at 2.
  apply list_fmap_ext. intros i r Hr. apply with_derived_id, Hq.
  by eapply list_elem_of_lookup_2.
Qed.

Lemma raw_part_calculated_columns (p : DataFrame) :
  raw <$> part_calculated_columns p = raw <$> p.
Proof.
  unfold part_calculated_columns.
  rewrite raw_over by apply per_row_avg_over.
  apply raw_part_Prev_Close_Daily_Return.
Qed.

Lemma add_calculated_columns_unfold (df : DataFrame) :
  add_calculated_columns df
  = mjoin ((part_calculated_columns ∘ (λ sym, partition_of sym df))
             <$> symbols df).
Proof.
  unfold add_calculated_columns, add_Moving_Avg_5.
  rewrite add_Prev_Close_Daily_Return_unfold.
  rewrite (stage_withColumn_over _ _ _ _
             (laid_out_decorate _ _ _ raw_part_Prev_Close_Daily_Return
                (laid_out_partitions df))).
  done.
Qed.

Lemma laid_out_calculated_columns (df : DataFrame) :
  laid_out (part_calculated_columns ∘ (λ sym, partition_of sym df)) (symbols df).
Proof.
  apply laid_out_decorate;
    [apply raw_part_calculated_columns|apply laid_out_partitions].
Qed.

(** A row of [part_calculated_columns p], by its index: the schema columns
    of row [i] of [p], and the three derived columns. *)
Lemma part_calculated_columns_lookup (p : DataFrame) (i : nat) (r : Row) :
  part_calculated_columns p !! i = Some r →
  ∃ r0 v m, p !! i = Some r0 ∧ raw r = raw r0 ∧
    lag Close p !! i = Some v ∧
    avg_over Close (-4) 0 p !! i = Some m ∧
    derived r !! "Prev_Close" = Some v ∧
    derived r !! "Daily_Return" = Some (sql_div (sql_sub (Close r0) v) v) ∧
    derived r !! "Moving_Avg_5" = Some m.
Proof.
  unfold part_calculated_columns. intros Hr.
  apply over_lookup in Hr as (r1 & m & Hr1 & Hm & ->).
  rewrite (reads_raw_avg_over Close (-4) 0 (λ _, eq_refl) _ p
             (raw_part_Prev_Close_Daily_Return p)) in Hm.
  unfold part_Prev_Close_Daily_Return in Hr1.
  rewrite list_lookup_fmap in Hr1.
  destruct (over "Prev_Close" (lag Close) p !! i) as [r2|] eqn:Hr2; [|done].
  apply over_lookup in Hr2 as (r0 & v & Hr0 & Hv & ->).
  simpl in Hr1. injection Hr1 as <-.
  exists r0, v, m. rewrite dcol_with_derived, decide_True by done.
  repeat split; try done;
    unfold with_derived; simpl; rewrite !lookup_insert;
    repeat case_decide; done.
Qed.

Lemma part_calculated_columns_idem (p : DataFrame) :
  part_calculated_columns (part_calculated_columns p) = part_calculated_columns p.
Proof.
  set (q := part_calculated_columns p).
  assert (Hraw : raw <$> q = raw <$> p) by apply raw_part_calculated_columns.
  assert (H1 : over "Prev_Close" (lag Close) q = q).
  { apply over_id. intros i r Hr. rewrite (reads_raw_lag _ _ Hraw).
    apply part_calculated_columns_lookup in Hr
      as (r0 & v & m & _ & _ & Hv & _ & HPC & _). eauto. }
  assert (H2 : part_Prev_Close_Daily_Return q = q).
  { unfold part_Prev_Close_Daily_Return. rewrite H1.
    apply withColumn_id. intros r Hr. apply list_elem_of_lookup in Hr as [i Hr].
    apply part_calculated_columns_lookup in Hr
      as (r0 & v & m & _ & Hr0 & _ & _ & HPC & HDR & _).
    unfold dcol. rewrite HPC, HDR. simpl.
    apply (f_equal Close) in Hr0. simpl in Hr0. by rewrite Hr0. }
  unfold part_calculated_columns at 1. fold q. rewrite H2.
  apply over_id. intros i r Hr.
  rewrite (reads_raw_avg_over Close (-4) 0 (λ _, eq_refl) _ _ Hraw).
  apply part_calculated_columns_lookup in Hr
    as (r0 & v & m & _ & _ & _ & Hm & _ & _ & HMA). eauto.
Qed.

Lemma stage_add_Prev_Close_Daily_Return :
  stage add_Prev_Close_Daily_Return part_Prev_Close_Daily_Return.
Proof.
  intros g ks Hl. unfold add_Prev_Close_Daily_Return.
  rewrite (stage_withColumn_over _ _ _ _ Hl).
  by rewrite (stage_withColumn _ _ _ _
                (laid_out_decorate _ _ _
                   (λ p, raw_over "Prev_Close" (lag Close) p (per_row_lag Close))
                   Hl)).
Qed.

Lemma stage_add_calculated_columns :
  stage add_calculated_columns part_calculated_columns.
Proof.
  apply (stage_compose add_Prev_Close_Daily_Return part_Prev_Close_Daily_Return
           add_Moving_Avg_5 (over "Moving_Avg_5" (avg_over Close (-4) 0))).
  - apply raw_part_Prev_Close_Daily_Return.
  - apply stage_add_Prev_Close_Daily_Return.
  - apply stage_withColumn_over.
Qed.

Lemma over_daily_return_id (p : DataFrame) :
  over "Daily_Return" daily_return_over (part_calculated_columns p)
  = part_calculated_columns p.
Proof.
  set (q := part_calculated_columns p).
  assert (Hraw : raw <$> q = raw <$> p) by apply raw_part_calculated_columns.
  apply over_id. intros i r Hr. unfold daily_return_over.
  rewrite lookup_zip_with, list_lookup_fmap, Hr, (reads_raw_lag _ _ Hraw).
  apply part_calculated_columns_lookup in Hr
    as (r0 & v & m & _ & Hr0 & Hv & _ & _ & HDR & _).
  rewrite Hv. simpl. eexists. split; [done|].
  apply (f_equal Close) in Hr0. simpl in Hr0. by rewrite Hr0.
Qed.

Lemma over_over (name : string) (fn : DataFrame → list (option R)) (p : DataFrame) :
  per_row fn → reads_raw fn →
  over name fn (over name fn p) = over name fn p.
Proof.
  intros Hlen Hfn. apply over_id. intros i r Hr.
  rewrite (Hfn _ p (raw_over name fn p Hlen)).
  apply over_lookup in Hr as (r0 & v & _ & Hv & ->).
  exists v. split; [done|]. unfold with_derived. simpl.
  apply lookup_insert_eq.
Qed.

(** C8: running lines 81-95 on their own output gives that output again,
    row for row and column for column; so does [calculate_daily_return] on
    it; and [calculate_moving_average], run on its own output with the same
    field and length, returns that output. *)
Theorem window_aggregator_idempotent (df : DataFrame) :
  add_calculated_columns (add_calculated_columns df)
    = add_calculated_columns df ∧
  calculate_daily_return (add_calculated_columns df)
    = add_calculated_columns df ∧
  ∀ column_name num_points out,
    calculate_moving_average df column_name num_points = inr out →
    calculate_moving_average out column_name num_points = inr out.
Proof.
  split; [|split].
  - rewrite (add_calculated_columns_unfold df).
    rewrite (stage_add_calculated_columns _ _ (laid_out_calculated_columns df)).
    f_equal. apply list_fmap_ext. intros i sym _. simpl.
    apply part_calculated_columns_idem.
  - rewrite (add_calculated_columns_unfold df). unfold calculate_daily_return.
    rewrite (stage_withColumn_over _ _ _ _ (laid_out_calculated_columns df)).
    f_equal. apply list_fmap_ext. intros i sym _. simpl.
    apply over_daily_return_id.
  - intros f n out Hout.
    destruct (calculate_moving_average_inr _ _ _ _ Hout) as (lo & Hlo & Hall).
    rewrite Hall in Hout. injection Hout as <-. rewrite Hall. f_equal.
    set (name := "Moving_Avg_" +:+ _). set (fn := avg_over _ _ _).
    assert (Hlen : per_row fn) by apply per_row_avg_over.
    assert (Hfn : reads_raw fn) by apply reads_raw_avg_over, raw_col.
    rewrite (withColumn_over_unfold name fn df).
    rewrite (stage_withColumn_over _ _ _ _
               (laid_out_decorate (over name fn) _ _
                  (λ p, raw_over name fn p Hlen) (laid_out_partitions df))).
    f_equal. apply list_fmap_ext. intros i sym _. simpl.
    by apply over_over.
Qed.

Lemma window_aggregator_idempotent_witness :
  ∃ out, calculate_moving_average three_days FClose 2 = inr out
         ∧ calculate_moving_average out FClose 2 = inr out.
Proof.
  eexists. split; [reflexivity|].
  apply (proj2 (proj2 (window_aggregator_idempotent three_days))).
  reflexivity.
Defined.

(** ** Correlation Engine *)

Local Open Scope R_scope.

Lemma counter_of_snoc (l : list (R * R)) (xy : R * R) :
  counter_of (l ++ [xy]) = counter_add (counter_of l) xy.
Proof. unfold counter_of. by rewrite foldl_app. Qed.

Lemma counter_of_count (l : list (R * R)) :
  count (counter_of l) = Z.of_nat (length l).
Proof.
  induction l as [|xy l IH] using rev_ind; [done|].
  rewrite counter_of_snoc, length_app. simpl. rewrite IH. lia.
Qed.

(** One [add], in terms of the number [n] of rows seen before. *)
Lemma counter_add_step (c : CovarianceCounter) (x y : R) :
  (0 <= count c)%Z →
  let n := IZR (count c) in
  let k := n / (n + 1) in
  let c' := counter_add c (x, y) in
  0 <= k ∧
  xAvg c' = xAvg c + (x - xAvg c) / (n + 1) ∧
  yAvg c' = yAvg c + (y - yAvg c) / (n + 1) ∧
  Ck c' = Ck c + k * (x - xAvg c) * (y - yAvg c) ∧
  MkX c' = MkX c + k * (x - xAvg c) * (x - xAvg c) ∧
  MkY c' = MkY c + k * (y - yAvg c) * (y - yAvg c).
Proof.
  intros Hc n k c'. assert (Hn : 0 <= n) by (apply IZR_le in Hc; exact Hc).
  assert (Hn1 : n + 1 ≠ 0) by lra.
  unfold c', counter_add, k. simpl. rewrite plus_IZR. fold n.
  split; [apply Rmult_le_pos; [lra|]; left; apply Rinv_0_lt_compat; lra|].
  repeat split; field; lra.
Qed.

Lemma cauchy_schwarz_step (C X Y a b k : R) :
  0 <= X → 0 <= Y → 0 <= k → C * C <= X * Y →
  (C + k * a * b) * (C + k * a * b) <= (X + k * a * a) * (Y + k * b * b).
Proof.
  intros HX HY Hk HC.
  assert (Hkey : 2 * C * a * b <= X * b * b + Y * a * a).
  { destruct (Rle_lt_dec (2 * C * a * b) (X * b * b + Y * a * a)) as [|Hlt];
      [done|exfalso].
    assert (H0 : 0 <= X * b * b + Y * a * a) by nra.
    assert (H1 : (X * b * b + Y * a * a) * (X * b * b + Y * a * a)
                 < (2 * C * a * b) * (2 * C * a * b)) by nra.
    assert (H2 : (a * a * (b * b)) * (C * C) <= (a * a * (b * b)) * (X * Y)).
    { apply Rmult_le_compat_l; [nra|done]. }
    pose proof (Rle_0_sqr (X * b * b - Y * a * a)) as H3. unfold Rsqr in H3.
    nra. }
  nra.
Qed.

(** One coordinate of an [add]: the running mean stays at the common value
    of a constant series, and the sum of squares stays zero exactly then. *)
Lemma welford_constant (n avg M x : R) (known : Prop) (rest : R → Prop) :
  0 <= n → 0 <= M → (n = 0 ↔ known) →
  (∀ v, ¬ known → rest v → avg = v) →
  (M = 0 ↔ ∃ v, rest v) →
  (known → ∀ v, rest v) →
  let avg' := avg + (x - avg) / (n + 1) in
  let M' := M + n / (n + 1) * (x - avg) * (x - avg) in
  0 <= M' ∧
  (∀ v, rest v ∧ x = v → avg' = v) ∧
  (M' = 0 ↔ ∃ v, rest v ∧ x = v).
Proof.
  intros Hn HM Hnil Havg HM0 Hall avg' M'.
  assert (Hn1 : 0 < n + 1) by lra.
  assert (Hk : 0 <= n / (n + 1)).
  { apply Rmult_le_pos; [lra|]. left. by apply Rinv_0_lt_compat. }
  assert (Hsq : 0 <= n / (n + 1) * (x - avg) * (x - avg)).
  { rewrite Rmult_assoc. apply Rmult_le_pos; [done|]. apply Rle_0_sqr. }
  split; [unfold M'; lra|]. split.
  - intros v [Hv ->]. unfold avg'.
    destruct (decide (n = 0)) as [->|Hn0]; [field|].
    rewrite (Havg v); [field; lra| |done]. by rewrite <- Hnil.
  - split.
    + intros HM'. unfold M' in HM'.
      assert (HM1 : M = 0) by lra.
      assert (Hsq0 : n / (n + 1) * (x - avg) * (x - avg) = 0) by lra.
      apply HM0 in HM1 as [v Hv].
      destruct (decide (n = 0)) as [Hn0|Hn0].
      * exists x. split; [|done]. by apply Hall, Hnil.
      * exists v. split; [done|].
        assert (Havgv : avg = v) by (apply Havg; [by rewrite <- Hnil|done]).
        assert (Hk0 : 0 < n / (n + 1)).
        { apply Rmult_lt_0_compat; [lra|]. by apply Rinv_0_lt_compat. }
        assert (Hd : (x - avg) * (x - avg) = 0).
        { rewrite Rmult_assoc in Hsq0.
          apply Rmult_integral in Hsq0 as [?|?]; [lra|done]. }
        apply Rmult_integral in Hd. lra.
    + intros (v & Hv & ->). unfold M'.
      assert (HM1 : M = 0) by (apply HM0; eauto).
      destruct (decide (n = 0)) as [->|Hn0]; [rewrite HM1; field|].
      rewrite (Havg v); [rewrite HM1; field; lra| |done]. by rewrite <- Hnil.
Qed.

Lemma constant_x_snoc (v : R) (l : list (R * R)) (x y : R) :
  constant_x v (l ++ [(x, y)]) ↔ constant_x v l ∧ x = v.
Proof. unfold constant_x. by rewrite Forall_app, Forall_singleton. Qed.

Lemma constant_y_snoc (v : R) (l : list (R * R)) (x y : R) :
  constant_y v (l ++ [(x, y)]) ↔ constant_y v l ∧ y = v.
Proof. unfold constant_y. by rewrite Forall_app, Forall_singleton. Qed.

Lemma IZR_length_0 {A} (l : list A) :
  IZR (Z.of_nat (length l)) = 0 ↔ l = [].
Proof.
  split.
  - intros H. apply eq_IZR in H. apply nil_length_inv. lia.
  - by intros ->.
Qed.

Lemma counter_of_inv (l : list (R * R)) : counter_inv l (counter_of l).
Proof.
  induction l as [|[x y] l IH] using rev_ind.
  - split; simpl; try lra; try done.
    + split; [|done]. intros _. exists 0. constructor.
    + split; [|done]. intros _. exists 0. constructor.
  - rewrite counter_of_snoc. destruct IH as [HX HY HC HxA HyA HX0 HY0].
    set (c := counter_of l) in *.
    assert (Hcount : (0 <= count c)%Z).
    { unfold c. rewrite counter_of_count. lia. }
    destruct (counter_add_step c x y Hcount) as (Hk & Hx' & Hy' & HC' & HX' & HY').
    assert (Hn : IZR (count c) = IZR (Z.of_nat (length l))).
    { unfold c. by rewrite counter_of_count. }
    assert (Hn0 : 0 <= IZR (count c)) by by apply IZR_le in Hcount.
    assert (Hnil : IZR (count c) = 0 ↔ l = []).
    { rewrite Hn. apply IZR_length_0. }
    destruct (welford_constant (IZR (count c)) (xAvg c) (MkX c) x
                (l = []) (λ v, constant_x v l))
      as (HXn & HxAn & HX0n); try done.
    { intros ->. constructor. }
    destruct (welford_constant (IZR (count c)) (yAvg c) (MkY c) y
                (l = []) (λ v, constant_y v l))
      as (HYn & HyAn & HY0n); try done.
    { intros ->. constructor. }
    split.
    + rewrite HX'. exact HXn.
    + rewrite HY'. exact HYn.
    + rewrite HC', HX', HY'. rewrite !(Rmult_assoc (_ / _)).
      rewrite <- !Rmult_assoc. by apply cauchy_schwarz_step.
    + intros v _ Hv. apply constant_x_snoc in Hv. rewrite Hx'. by apply HxAn.
    + intros v _ Hv. apply constant_y_snoc in Hv. rewrite Hy'. by apply HyAn.
    + rewrite HX', HX0n. by setoid_rewrite constant_x_snoc.
    + rewrite HY', HY0n. by setoid_rewrite constant_y_snoc.
Qed.

Lemma short_sample_constant (l : list (R * R)) :
  (length l < 2)%nat → ∃ v, constant_x v l.
Proof.
  destruct l as [|[x y] [|? ?]]; simpl; intros Hlen; try lia.
  - exists 0. constructor.
  - exists x. by repeat constructor.
Qed.

Lemma pearsonCorrelation_degenerate (l : list (R * R)) :
  degenerate l → pearsonCorrelation l = JNaN.
Proof.
  intros Hdeg. unfold pearsonCorrelation. fold (counter_of l).
  destruct (counter_of_inv l) as [HX HY HC _ _ HX0 HY0].
  assert (HP : MkX (counter_of l) * MkY (counter_of l) = 0).
  { destruct Hdeg as [Hlen|[Hx|Hy]].
    - apply short_sample_constant, HX0 in Hlen. rewrite Hlen. lra.
    - apply HX0 in Hx. rewrite Hx. lra.
    - apply HY0 in Hy. rewrite Hy. lra. }
  assert (HC0 : Ck (counter_of l) = 0) by nra.
  rewrite HP, HC0. unfold jsqrt, jdiv.
  rewrite decide_False by lra. rewrite sqrt_0.
  by rewrite !decide_True.
Qed.

Lemma list_ascii_of_string_app (s1 s2 : string) :
  list_ascii_of_string (s1 +:+ s2)
  = (list_ascii_of_string s1 ++ list_ascii_of_string s2)%list.
Proof. induction s1 as [|a s1 IH]; simpl; [done|]. by rewrite IH. Qed.

(** The alias of a symbol is one name exactly when the symbol holds neither
    a dot nor a backtick. *)
Lemma plain_alias (column : field) (stock : string) :
  plain_name (alias column stock) ↔ plain_name stock.
Proof.
  unfold plain_name, alias. rewrite !list_ascii_of_string_app, !Forall_app.
  split; [tauto|]. intros H. split; [|split; [|done]].
  - destruct column; apply (bool_decide_unpack _); vm_compute; exact I.
  - apply (bool_decide_unpack _). vm_compute. exact I.
Qed.

Lemma calculate_correlation_unfold (df : DataFrame) (stock1 stock2 : string)
    (column : field) :
  plain_name stock1 → plain_name stock2 → ¬ ambiguous column stock1 stock2 →
  calculate_correlation_between_stocks df stock1 stock2 column
  = inr (pearsonCorrelation (aligned_sample df stock1 stock2 column)).
Proof.
  intros H1 H2 Hna. apply (plain_alias column) in H1, H2.
  unfold calculate_correlation_between_stocks.
  destruct (decide (¬ plain_name (alias column stock1))) as [|_]; [tauto|].
  destruct (decide (string_lower (alias column stock1)
                    = string_lower (alias column stock2))) as [|_]; [done|].
  destruct (decide (¬ plain_name (alias column stock2))) as [|_]; [tauto|].
  reflexivity.
Qed.




Lemma plain_AAPL : plain_name "AAPL".
Proof. apply (bool_decide_unpack _). vm_compute. exact I. Qed.







(** *** Symmetry *)

Lemma join_on_Date_unfold (a b : list (option date * option R)) :
  join_on_Date a b = a ≫= λ ra, omap (join_match ra) b.
Proof. reflexivity. Qed.














Local Close Scope R_scope.

(** * Further properties of the notebook *)

(** ** Grouping and filtering *)

Lemma distinct_filter `{EqDecision K} (P : K → Prop) `{!∀ k, Decision (P k)}
    (l : list K) :
  distinct (filter P l) = filter P (distinct l).
Proof.
  induction l as [|x l IH]; [done|]. simpl.
  rewrite filter_cons. case_decide as HP.
  - simpl. rewrite (filter_cons_True _ _ _ HP). f_equal. rewrite IH.
    rewrite !list_filter_filter. apply list_filter_iff. tauto.
  - rewrite (filter_cons_False _ _ _ HP), IH, list_filter_filter.
    apply list_filter_iff. intros k. split; [|tauto].
    intros Hk. split; [done|]. by intros ->.
Qed.

Lemma filter_fmap_key {A K} (key : A → K) (P : K → Prop)
    `{!∀ k, Decision (P k)} (l : list A) :
  filter P (key <$> l) = key <$> filter (λ x, P (key x)) l.
Proof.
  induction l as [|x l IH]; [done|]. csimpl.
  rewrite !filter_cons. simpl. case_decide; csimpl; by rewrite IH.
Qed.

(** Grouping the rows that pass a test on the grouping key gives the groups
    of the whole frame whose key passes it. *)
Lemma groupBy_filter `{EqDecision K} (key : Row → K) (P : K → Prop)
    `{!∀ k, Decision (P k)} (df : DataFrame) :
  groupBy key (filter (λ r, P (key r)) df)
  = filter (λ g, P g.1) (groupBy key df).
Proof.
  unfold groupBy.
  rewrite (filter_fmap_key (λ k, (k, filter (λ r, key r = k) df)) (λ g, P g.1)).
  simpl. rewrite <- filter_fmap_key, distinct_filter.
  apply list_fmap_ext. intros i k Hk. f_equal.
  apply list_elem_of_lookup_2, list_elem_of_filter in Hk as [HP _].
  rewrite list_filter_filter. apply list_filter_iff.
  intros r. split; [tauto|]. intros <-. done.
Qed.

(** The groups of a frame hold its rows, each once. *)
Lemma groupBy_Permutation `{EqDecision K} (key : Row → K) (df : DataFrame) :
  mjoin (snd <$> groupBy key df) ≡ₚ df.
Proof.
  unfold groupBy. rewrite <- list_fmap_compose.
  assert (Hgen : ∀ ks, NoDup ks →
            mjoin ((λ k, filter (λ r, key r = k) df) <$> ks)
            ≡ₚ filter (λ r, key r ∈ ks) df).
  { induction 1 as [|a ks Ha _ IH].
    - simpl. rewrite filter_Forall_nil; [done|].
      apply Forall_forall. intros r _. apply not_elem_of_nil.
    - rewrite fmap_cons, mjoin_cons, IH. clear IH.
      induction df as [|r df IHdf]; [done|].
      rewrite !filter_cons. destruct (decide (key r = a)) as [Hr|Hr].
      + rewrite decide_False by (by rewrite Hr).
        rewrite decide_True by (rewrite Hr; apply list_elem_of_here).
        simpl. by rewrite IHdf.
      + destruct (decide (key r ∈ ks)) as [Hin|Hin].
        * rewrite decide_True by (by apply list_elem_of_further).
          rewrite <- Permutation_middle. by rewrite IHdf.
        * rewrite decide_False; [done|].
          rewrite elem_of_cons. tauto. }
  rewrite (Hgen _ (NoDup_distinct _)).
  rewrite filter_Forall_id; [done|]. apply Forall_forall. intros r Hr.
  apply elem_of_distinct. by apply list_elem_of_fmap_2.
Qed.

(** ** Period Aggregator and Best-Performer Selector, further *)

Lemma return_rate_by_filter (period : Row → list (option Z))
    (target : list (option Z)) (df : DataFrame) :
  return_rate_by period (filter (λ r, period r = target) df)
  = filter (λ a, g_period a = target) (return_rate_by period df).
Proof.
  unfold return_rate_by.
  set (key := λ r : Row, (Stock r, period r)).
  set (f := λ g : string * list (option Z) * DataFrame, mkAgg _ _ _ _ _).
  pose proof (groupBy_filter key (λ k, k.2 = target) df) as E.
  etrans; [|etrans; [exact (f_equal (fmap f) E)|]].
  - f_equal; try f_equal; try by apply list_filter_iff.
  - symmetry. etrans; [apply (filter_fmap_key f)|].
    f_equal; try by apply list_filter_iff.
Qed.

(** Filtering the frame to a period and grouping, as [best_return_rate]
    does, gives the rows of the period in [calculate_return_rate]'s table. *)
Lemma best_return_rate_filter_groups
    (df : DataFrame) (start_date : string) (y m d : Z) :
  three_ints start_date y m d → java_long y →
  (java_long m →
   best_return_rate df start_date "month"
   = inr (take 1 (orderBy_Return_Rate_desc
                    (filter (λ a, g_period a = [Some y; Some m])
                            (calculate_return_rate df).1.2)))) ∧
  best_return_rate df start_date "year"
  = inr (take 1 (orderBy_Return_Rate_desc
                   (filter (λ a, g_period a = [Some y])
                           (calculate_return_rate df).2))).
Proof.
  intros Hp Hy. apply unpack3_ints_inr in Hp. unfold best_return_rate.
  rewrite Hp. split.
  - intros Hm. simpl.
    destruct (decide (¬ java_long y)) as [|_]; [tauto|].
    destruct (decide (¬ java_long m)) as [|_]; [tauto|].
    do 3 f_equal. rewrite <- return_rate_by_filter. f_equal.
    apply list_filter_iff. intros r. unfold by_Year_Month.
    split; [by intros [-> ->]|by intros [= -> ->]].
  - simpl. destruct (decide (¬ java_long y)) as [|_]; [tauto|].
    do 3 f_equal. rewrite <- return_rate_by_filter. f_equal.
    apply list_filter_iff. intros r. unfold by_Year.
    split; [by intros ->|by intros [= ->]].
Qed.

(** A call for a month or a year that returns has handed Java longs to the
    JVM. *)
Lemma best_return_rate_inr_longs
    (df : DataFrame) (start_date period : string) (y m d : Z)
    (t : list PeriodAggregate) :
  three_ints start_date y m d → period = "month" ∨ period = "year" →
  best_return_rate df start_date period = inr t → filter_longs period y m.
Proof.
  intros Hp Hperiod. apply unpack3_ints_inr in Hp. unfold best_return_rate.
  rewrite Hp. unfold filter_longs.
  destruct Hperiod as [-> | ->]; simpl.
  - destruct (decide (¬ java_long y)) as [|Hy]; [done|].
    destruct (decide (¬ java_long m)) as [|Hm]; [done|].
    intros _. split; [by apply dec_stable|]. intros _. by apply dec_stable.
  - destruct (decide (¬ java_long y)) as [|Hy]; [done|].
    intros _. split; [by apply dec_stable|]. done.
Qed.

(** X1: when the year and the month of the start date are Java longs, the
    row [best_return_rate] returns for a month (a year) is chosen among the
    rows that [calculate_return_rate] has for that month (year) in its
    monthly (yearly) table: filtering the frame to the period and then
    grouping gives those rows.  When the year is not a Java long, or for a
    month the month is not, the call raises. *)
Theorem best_return_rate_from_tables
    (df : DataFrame) (start_date : string) (y m d : Z) :
  three_ints start_date y m d →
  (java_long y → java_long m →
   best_return_rate df start_date "month"
   = inr (take 1 (orderBy_Return_Rate_desc
                    (filter (λ a, g_period a = [Some y; Some m])
                            (calculate_return_rate df).1.2)))) ∧
  (java_long y →
   best_return_rate df start_date "year"
   = inr (take 1 (orderBy_Return_Rate_desc
                    (filter (λ a, g_period a = [Some y])
                            (calculate_return_rate df).2)))) ∧
  (∀ period, period = "month" ∨ period = "year" →
     ¬ filter_longs period y m →
     ∃ msg, best_return_rate df start_date period = inl (Py4JError msg)).
Proof.
  intros Hp. split; [|split].
  - intros Hy Hm. by apply (best_return_rate_filter_groups df start_date y m d).
  - intros Hy. by apply (best_return_rate_filter_groups df start_date y m d).
  - intros period Hperiod Hno. apply unpack3_ints_inr in Hp.
    unfold best_return_rate. rewrite Hp. unfold filter_longs in Hno.
    destruct Hperiod as [-> | ->]; simpl.
    + destruct (decide (¬ java_long y)); [eauto|].
      destruct (decide (¬ java_long m)); [eauto|].
      exfalso. apply Hno. split; [by apply dec_stable|].
      intros _. by apply dec_stable.
    + destruct (decide (¬ java_long y)); [eauto|].
      exfalso. apply Hno. split; [by apply dec_stable|]. done.
Qed.

Lemma best_return_rate_from_tables_witness :
  best_return_rate three_days "2020-01-05" "month"
  = inr (take 1 (orderBy_Return_Rate_desc
                   (filter (λ a, g_period a = [Some 2020; Some 1])
                           (calculate_return_rate three_days).1.2))).
Proof.
  apply (proj1 (best_return_rate_from_tables three_days "2020-01-05" 2020 1 5
                  three_ints_2020_01_05)).
  - unfold java_long. lia.
  - unfold java_long. lia.
Defined.

(** *** Descending order *)

Lemma rate_geb_total (a b : option R) : rate_geb a b = false → rate_geb b a = true.
Proof.
  destruct a as [x|], b as [y|]; simpl; try done.
  intros H. apply bool_decide_eq_false in H. apply bool_decide_eq_true.
  apply Rnot_le_lt in H. by apply Rlt_le.
Qed.

Lemma rate_geb_trans (a b c : option R) :
  rate_geb a b = true → rate_geb b c = true → rate_geb a c = true.
Proof.
  destruct a as [x|], b as [y|], c as [z|]; simpl; try done.
  rewrite !bool_decide_eq_true. intros. by eapply Rle_trans.
Qed.

(** From [rate_geb]: a rate that is not NULL is at most the other, which is
    not NULL either. *)
Lemma rate_geb_Some (a b : option R) (y : R) :
  rate_geb a b = true → b = Some y → ∃ x, a = Some x ∧ (y <= x)%R.
Proof.
  intros H ->. destruct a as [x|]; simpl in H; [|done].
  apply bool_decide_eq_true in H. eauto.
Qed.

Section sort_by.
Context {A : Type} (geb : A → A → bool).
Hypothesis geb_total : ∀ a b, geb a b = false → geb b a = true.
Hypothesis geb_trans : ∀ a b c, geb a b = true → geb b c = true → geb a c = true.

Lemma insert_by_Permutation (a : A) (l : list A) : insert_by geb a l ≡ₚ a :: l.
Proof.
  induction l as [|b l IH]; simpl; [done|].
  destruct (geb a b); [done|]. rewrite IH. apply Permutation_swap.
Qed.

Lemma sort_by_Permutation (t : list A) : sort_by geb t ≡ₚ t.
Proof.
  induction t as [|a t IH]; simpl; [done|].
  by rewrite insert_by_Permutation, IH.
Qed.

Lemma insert_by_sorted (a : A) (l : list A) :
  StronglySorted (λ x y, geb x y = true) l →
  StronglySorted (λ x y, geb x y = true) (insert_by geb a l).
Proof using geb_total geb_trans.
  induction 1 as [|b l Hl IH Hb]; simpl.
  - repeat constructor.
  - destruct (geb a b) eqn:E.
    + constructor; [by constructor|]. constructor; [done|].
      eapply Forall_impl; [exact Hb|]. intros c Hc. simpl in *. eauto.
    + constructor; [done|]. rewrite insert_by_Permutation.
      constructor; [|done]. by apply geb_total.
Qed.

Lemma sort_by_sorted (t : list A) :
  StronglySorted (λ x y, geb x y = true) (sort_by geb t).
Proof using geb_total geb_trans.
  induction t as [|a t IH]; simpl; [constructor|].
  by apply insert_by_sorted.
Qed.

(** The first row of the order may come before every row. *)
Lemma sort_by_head (t : list A) (a : A) :
  head (sort_by geb t) = Some a → a ∈ t ∧ ∀ b, b ∈ t → geb a b = true.
Proof using geb_total geb_trans.
  intros Hhead. pose proof (sort_by_sorted t) as Hs.
  pose proof (sort_by_Permutation t) as Hp.
  destruct (sort_by geb t) as [|a' l]; simplify_eq/=.
  split.
  - rewrite <- Hp. apply list_elem_of_here.
  - intros b Hb. rewrite <- Hp in Hb.
    apply StronglySorted_inv in Hs as [_ Hall].
    apply elem_of_cons in Hb as [->|Hb].
    + destruct (geb a a) eqn:E; [done|].
      pose proof (geb_total _ _ E). congruence.
    + rewrite Forall_forall in Hall. by apply Hall.
Qed.

Lemma sort_by_nil (t : list A) : sort_by geb t = [] ↔ t = [].
Proof.
  split; [|by intros ->]. intros H.
  apply nil_length_inv.
  by rewrite <- (Permutation_length (sort_by_Permutation t)), H.
Qed.
End sort_by.

Section orderBy_desc.
Context {A : Type} (key : A → option R).

Lemma orderBy_desc_Permutation (t : list A) : orderBy_desc key t ≡ₚ t.
Proof. apply sort_by_Permutation. Qed.

(** The first row of a descending order is not below any row. *)
Lemma orderBy_desc_head (t : list A) (a : A) :
  head (orderBy_desc key t) = Some a →
  a ∈ t ∧ ∀ b, b ∈ t → not_below key a b.
Proof.
  apply sort_by_head.
  - intros x y. apply rate_geb_total.
  - intros x y z. apply rate_geb_trans.
Qed.

Lemma orderBy_desc_nil (t : list A) : orderBy_desc key t = [] ↔ t = [].
Proof. apply sort_by_nil. Qed.
End orderBy_desc.

Lemma orderBy_Return_Rate_desc_generic (t : list PeriodAggregate) :
  orderBy_Return_Rate_desc t = orderBy_desc Return_Rate t.
Proof.
  assert (Hins : ∀ a l, insert_by_rate a l
            = insert_by (λ a b, rate_geb (Return_Rate a) (Return_Rate b)) a l).
  { intros a l. induction l as [|b l IH]; simpl; [done|]. by rewrite IH. }
  induction t as [|a t IH]; simpl; [done|].
  unfold orderBy_Return_Rate_desc, orderBy_desc, sort_by in *.
  by rewrite IH, Hins.
Qed.

Lemma best_return_rate_candidates
    (df : DataFrame) (start_date period : string) (y m d : Z) :
  three_ints start_date y m d → period = "month" ∨ period = "year" →
  filter_longs period y m →
  best_return_rate df start_date period
  = inr (take 1 (orderBy_desc Return_Rate (candidates df period y m))).
Proof.
  intros Hp Hperiod [Hy Hm]. rewrite <- orderBy_Return_Rate_desc_generic.
  destruct (best_return_rate_filter_groups df start_date y m d Hp Hy)
    as [Hmonth Hyear].
  unfold candidates. destruct Hperiod as [-> | ->]; [by apply Hmonth; auto|exact Hyear].
Qed.

Lemma return_rate_by_nil (period : Row → list (option Z)) (df : DataFrame) :
  return_rate_by period df = [] ↔ df = [].
Proof.
  split; [|by intros ->]. unfold return_rate_by, groupBy.
  intros H. apply fmap_nil_inv, fmap_nil_inv in H. by destruct df.
Qed.

Lemma candidates_nil (df : DataFrame) (period : string) (y m : Z) :
  period = "month" ∨ period = "year" →
  candidates df period y m = [] ↔ ∀ r, r ∈ df → ¬ in_period period y m r.
Proof.
  intros Hperiod. unfold candidates, calculate_return_rate. simpl.
  assert (Hnil : ∀ (P : Row → Prop) `{!∀ r, Decision (P r)},
            filter P df = [] ↔ ∀ r, r ∈ df → ¬ P r).
  { intros P HP. split.
    - intros H r Hr HPr. by eapply (filter_nil_not_elem_of P df r).
    - intros H. apply filter_Forall_nil, Forall_forall. exact H. }
  destruct Hperiod as [-> | ->]; simpl;
    rewrite <- return_rate_by_filter, return_rate_by_nil, Hnil;
    unfold in_period, by_Year_Month, by_Year;
    split; intros H r Hr; specialize (H r Hr); intros Hin; apply H.
  - destruct Hin as [-> Hm]. by rewrite Hm.
  - injection Hin as -> ->. done.
  - by destruct Hin as [-> _].
  - injection Hin as ->. done.
Qed.

(** X2: the row returned for a month or a year has the highest return rate
    of that period: it is one of the period's rows of the return-rate table,
    and every rate of the period that is not NULL is at most its rate, which
    then is not NULL either. *)
Theorem best_return_rate_maximal
    (df : DataFrame) (start_date period : string) (y m d : Z)
    (t : list PeriodAggregate) (a : PeriodAggregate) :
  three_ints start_date y m d → period = "month" ∨ period = "year" →
  best_return_rate df start_date period = inr t → a ∈ t →
  a ∈ candidates df period y m ∧
  ∀ b rb, b ∈ candidates df period y m → Return_Rate b = Some rb →
    ∃ ra, Return_Rate a = Some ra ∧ (rb <= ra)%R.
Proof.
  intros Hp Hperiod Ht Ha.
  pose proof (best_return_rate_inr_longs _ _ _ _ _ _ _ Hp Hperiod Ht) as Hlong.
  rewrite (best_return_rate_candidates df start_date period y m d Hp Hperiod Hlong)
    in Ht.
  injection Ht as <-.
  assert (Hhead : head (orderBy_desc Return_Rate (candidates df period y m))
                  = Some a).
  { destruct (orderBy_desc _ _) as [|a' l]; simpl in Ha.
    - by apply elem_of_nil in Ha.
    - rewrite take_0 in Ha. by apply list_elem_of_singleton in Ha as ->. }
  apply orderBy_desc_head in Hhead as [Hin Hmax]. split; [done|].
  intros b rb Hb Hrb. by apply (rate_geb_Some _ _ _ (Hmax b Hb)).
Qed.

(** X3: for a month or a year the call returns once the start date parses
    and its year (and, for a month, its month) is a Java long: it returns a
    table of at most one row, which is empty exactly when no row of the
    frame falls in the period. *)
Theorem best_return_rate_empty_period
    (df : DataFrame) (start_date period : string) (y m d : Z) :
  three_ints start_date y m d → period = "month" ∨ period = "year" →
  filter_longs period y m →
  ∃ t, best_return_rate df start_date period = inr t ∧
       (length t ≤ 1)%nat ∧
       (t = [] ↔ ∀ r, r ∈ df → ¬ in_period period y m r).
Proof.
  intros Hp Hperiod Hlong.
  rewrite (best_return_rate_candidates df start_date period y m d Hp Hperiod Hlong).
  eexists. split; [reflexivity|]. split.
  - rewrite length_take. lia.
  - etrans; [|apply (candidates_nil df period y m Hperiod)].
    etrans; [|apply (orderBy_desc_nil Return_Rate)].
    destruct (orderBy_desc _ _) as [|a l];
      split; intros H; try reflexivity; simplify_eq/=.
Qed.

Lemma best_return_rate_maximal_witness :
  ∃ a, best_return_rate three_days "2020-01-05" "month" = inr [a]
       ∧ a ∈ candidates three_days "month" 2020 1
       ∧ ∀ b rb, b ∈ candidates three_days "month" 2020 1 →
           Return_Rate b = Some rb →
           ∃ ra, Return_Rate a = Some ra ∧ (rb <= ra)%R.
Proof.
  set (a := mkAgg "AAPL" january_2020 (Some 9%R) (Some 11%R)
                  (return_rate_expr (Some 9%R) (Some 11%R))).
  assert (Ha : best_return_rate three_days "2020-01-05" "month" = inr [a])
    by (vm_compute; reflexivity).
  exists a. split; [exact Ha|].
  apply (best_return_rate_maximal three_days "2020-01-05" "month" 2020 1 5
           [a] a three_ints_2020_01_05 (or_introl eq_refl) Ha).
  apply list_elem_of_here.
Defined.

Lemma best_return_rate_empty_period_witness :
  ∃ t, best_return_rate three_days "2020-01-05" "year" = inr t ∧
       (length t ≤ 1)%nat ∧
       (t = [] ↔ ∀ r, r ∈ three_days → ¬ in_period "year" 2020 1 r).
Proof.
  apply (best_return_rate_empty_period three_days "2020-01-05" "year" 2020 1 5
           three_ints_2020_01_05 (or_intror eq_refl)).
  split; [unfold java_long; lia|]. intros H. discriminate H.
Defined.

(** X4: a period with a single row has first = last; its return rate is 0,
    or NULL when that close is zero. *)
Theorem single_row_period
    (period : Row → list (option Z)) (df : DataFrame)
    (a : PeriodAggregate) (r : Row) (c : R) :
  a ∈ return_rate_by period df →
  group_rows period df (g_Stock a) (g_period a) = [r] →
  Close r = Some c →
  First_Close a = Some c ∧ Last_Close a = Some c ∧
  Return_Rate a = if decide (c = 0%R) then None else Some 0%R.
Proof.
  intros Ha Hg Hc. apply elem_of_return_rate_by in Ha as [_ (Hf & Hl & Hrate)].
  rewrite Hg in Hf, Hl. unfold first, last in *. simpl in *.
  rewrite Hc in Hf, Hl. split; [done|]. split; [done|].
  rewrite Hrate, Hf, Hl. unfold return_rate_expr, sql_div. simpl.
  case_decide; [done|]. simpl. f_equal. by field.
Qed.

Lemma single_row_period_witness :
  let a := mkAgg "MSFT" january_2020 (Some 50%R) (Some 50%R)
                 (return_rate_expr (Some 50%R) (Some 50%R)) in
  a ∈ return_rate_by by_Year_Month one_common_day ∧
  Return_Rate a = if decide (50%R = 0%R) then None else Some 0%R.
Proof.
  intros a.
  assert (Ha : a ∈ return_rate_by by_Year_Month one_common_day).
  { apply list_elem_of_further, list_elem_of_here. }
  split; [exact Ha|].
  apply (single_row_period by_Year_Month one_common_day a
           (price_row "MSFT" (mkDate 2020 1 7) 50) 50%R Ha).
  - vm_compute. reflexivity.
  - reflexivity.
Defined.

(** ** The window stage keeps the rows *)

Lemma mjoin_Permutation_ext {A K} (f g : K → list A) (ks : list K) :
  (∀ k, f k ≡ₚ g k) → mjoin (f <$> ks) ≡ₚ mjoin (g <$> ks).
Proof.
  intros Hfg. induction ks as [|k ks IH]; [done|].
  by rewrite !fmap_cons, !mjoin_cons, Hfg, IH.
Qed.

Lemma raw_laid_out_Permutation (h : DataFrame → DataFrame) (df : DataFrame) :
  (∀ p, raw <$> h p = raw <$> p) →
  raw <$> mjoin ((h ∘ (λ sym, partition_of sym df)) <$> symbols df)
  ≡ₚ raw <$> df.
Proof.
  intros Hraw. rewrite fmap_mjoin, <- list_fmap_compose.
  rewrite (mjoin_Permutation_ext _
             (λ sym, raw <$> filter (λ r, Stock r = sym) df)).
  - rewrite <- (groupBy_Permutation Stock df) at 2.
    rewrite fmap_mjoin. unfold groupBy, symbols.
    by rewrite <- !list_fmap_compose.
  - intros sym. simpl. rewrite Hraw. unfold partition_of.
    by rewrite orderBy_Date_Permutation.
Qed.

(** X5: adding the calculated columns (lines 81-95), [calculate_daily_return]
    and [calculate_moving_average] neither drop nor duplicate a row and
    leave the schema columns as they are: the schema rows of the result are
    those of the frame, in another order. *)
Theorem window_stage_keeps_rows (df : DataFrame) :
  raw <$> add_calculated_columns df ≡ₚ raw <$> df ∧
  raw <$> calculate_daily_return df ≡ₚ raw <$> df ∧
  ∀ column_name num_points out,
    calculate_moving_average df column_name num_points = inr out →
    raw <$> out ≡ₚ raw <$> df ∧ length out = length df.
Proof.
  split; [|split].
  - rewrite add_calculated_columns_unfold.
    apply raw_laid_out_Permutation, raw_part_calculated_columns.
  - unfold calculate_daily_return. rewrite withColumn_over_unfold.
    apply raw_laid_out_Permutation. intros p. apply raw_zip_with_derived.
    unfold lag. rewrite length_zip_with, length_fmap, length_take. simpl.
    rewrite length_fmap. lia.
  - intros f n out Hout.
    destruct (calculate_moving_average_inr _ _ _ _ Hout) as (lo & _ & Hall).
    rewrite Hall in Hout. injection Hout as <-. rewrite withColumn_over_unfold.
    assert (Hperm : ∀ name, raw <$> mjoin ((over name (avg_over (col f) lo 0)
                      ∘ (λ sym, partition_of sym df)) <$> symbols df)
                    ≡ₚ raw <$> df).
    { intros name. apply raw_laid_out_Permutation. intros p.
      apply raw_over, per_row_avg_over. }
    split; [apply Hperm|].
    rewrite <- (length_fmap raw), <- (length_fmap raw df).
    apply Permutation_length, Hperm.
Qed.

Lemma window_stage_keeps_rows_witness :
  ∃ out, calculate_moving_average three_days FClose 2 = inr out
         ∧ raw <$> out ≡ₚ raw <$> three_days ∧ length out = 3%nat.
Proof.
  eexists. split; [reflexivity|].
  apply (proj2 (proj2 (window_stage_keeps_rows three_days)) FClose 2).
  reflexivity.
Defined.

(** *** Aggregates: [sum], [min], [max], [avg] *)

Lemma Rsum_foldl (a : R) (xs : list R) : foldl Rplus a xs = (a + Rsum xs)%R.
Proof.
  unfold Rsum. revert a. induction xs as [|x xs IH]; intros a; simpl.
  - lra.
  - rewrite (IH (a + x)%R), (IH (0 + x)%R). lra.
Qed.

Lemma Rsum_cons (x : R) (xs : list R) : Rsum (x :: xs) = (x + Rsum xs)%R.
Proof. unfold Rsum at 1. simpl. rewrite Rsum_foldl. lra. Qed.

Lemma sql_sum_foldl (acc : option R) (vals : list (option R)) :
  foldl (λ acc v, match v with
                  | None => acc
                  | Some x => Some (default 0%R acc + x)%R
                  end) acc vals
  = match omap (λ v : option R, v) vals with
    | [] => acc
    | xs => Some (default 0%R acc + Rsum xs)%R
    end.
Proof.
  revert acc. induction vals as [|[x|] vals IH]; intros acc; csimpl.
  - done.
  - rewrite IH. rewrite Rsum_cons.
    destruct (omap _ vals) as [|y ys]; simpl.
    + f_equal. unfold Rsum. simpl. lra.
    + f_equal. lra.
  - apply IH.
Qed.

(** [sum] is NULL when no value is non-null, and the sum of the non-null
    values otherwise. *)
Lemma sql_sum_omap (vals : list (option R)) :
  sql_sum vals = match omap (λ v : option R, v) vals with
                 | [] => None
                 | xs => Some (Rsum xs)
                 end.
Proof.
  unfold sql_sum. rewrite sql_sum_foldl.
  destruct (omap _ vals); [done|]. simpl. f_equal. lra.
Qed.

Lemma least_foldl (a : R) (vals : list (option R)) :
  foldl least (Some a) vals
  = Some (foldl Rmin a (omap (λ v : option R, v) vals)).
Proof.
  revert a. induction vals as [|[x|] vals IH]; intros a; csimpl; [done|..].
  - apply IH.
  - apply IH.
Qed.

Lemma greatest_foldl (a : R) (vals : list (option R)) :
  foldl greatest (Some a) vals
  = Some (foldl Rmax a (omap (λ v : option R, v) vals)).
Proof.
  revert a. induction vals as [|[x|] vals IH]; intros a; csimpl; [done|..].
  - apply IH.
  - apply IH.
Qed.

Lemma sql_min_omap (vals : list (option R)) :
  sql_min vals = match omap (λ v : option R, v) vals with
                 | [] => None
                 | x :: xs => Some (foldl Rmin x xs)
                 end.
Proof.
  unfold sql_min. induction vals as [|[x|] vals IH]; csimpl; [done|..].
  - apply least_foldl.
  - apply IH.
Qed.

Lemma sql_max_omap (vals : list (option R)) :
  sql_max vals = match omap (λ v : option R, v) vals with
                 | [] => None
                 | x :: xs => Some (foldl Rmax x xs)
                 end.
Proof.
  unfold sql_max. induction vals as [|[x|] vals IH]; csimpl; [done|..].
  - apply greatest_foldl.
  - apply IH.
Qed.

Lemma foldl_Rmin_spec (a : R) (xs : list R) :
  foldl Rmin a xs ∈ a :: xs ∧ ∀ x, x ∈ a :: xs → (foldl Rmin a xs <= x)%R.
Proof.
  revert a. induction xs as [|y xs IH]; intros a; simpl.
  - split; [apply list_elem_of_here|].
    intros x Hx. apply list_elem_of_singleton in Hx as ->. lra.
  - destruct (IH (Rmin a y)) as [Hin Hle]. split.
    + apply elem_of_cons in Hin as [Hin|Hin].
      * rewrite Hin. unfold Rmin. destruct (Rle_dec a y).
        -- apply list_elem_of_here.
        -- apply list_elem_of_further, list_elem_of_here.
      * by do 2 apply list_elem_of_further.
    + intros x Hx.
      pose proof (Hle (Rmin a y) (list_elem_of_here _ _)) as H0.
      pose proof (Rmin_l a y). pose proof (Rmin_r a y).
      apply elem_of_cons in Hx as [->|Hx]; [lra|].
      apply elem_of_cons in Hx as [->|Hx]; [lra|].
      apply Hle. by apply list_elem_of_further.
Qed.

Lemma foldl_Rmax_spec (a : R) (xs : list R) :
  foldl Rmax a xs ∈ a :: xs ∧ ∀ x, x ∈ a :: xs → (x <= foldl Rmax a xs)%R.
Proof.
  revert a. induction xs as [|y xs IH]; intros a; simpl.
  - split; [apply list_elem_of_here|].
    intros x Hx. apply list_elem_of_singleton in Hx as ->. lra.
  - destruct (IH (Rmax a y)) as [Hin Hle]. split.
    + apply elem_of_cons in Hin as [Hin|Hin].
      * rewrite Hin. unfold Rmax. destruct (Rle_dec a y).
        -- apply list_elem_of_further, list_elem_of_here.
        -- apply list_elem_of_here.
      * by do 2 apply list_elem_of_further.
    + intros x Hx.
      pose proof (Hle (Rmax a y) (list_elem_of_here _ _)) as H0.
      pose proof (Rmax_l a y). pose proof (Rmax_r a y).
      apply elem_of_cons in Hx as [->|Hx]; [lra|].
      apply elem_of_cons in Hx as [->|Hx]; [lra|].
      apply Hle. by apply list_elem_of_further.
Qed.

Lemma omap_fmap_id {A B} (f : A → option B) (l : list A) :
  omap (λ v : option B, v) (f <$> l) = omap f l.
Proof.
  induction l as [|x l IH]; [done|]. csimpl. rewrite IH.
  by destruct (f x).
Qed.

(** X6: a row of [summary_stats] holds, for its symbol, either four NULLs
    (no row of the symbol has a close) or a total, an average, a minimum
    and a maximum; the minimum and the maximum are closes of the symbol and
    bound every close of the symbol; with a single close all four are that
    close. *)
Theorem summary_stats_bounds (df : DataFrame) (s : SummaryStats) :
  s ∈ summary_stats df →
  let closes := closes_of df (s_Stock s) in
  (closes = [] ∧ Total_Close s = None ∧ Avg_Close s = None
   ∧ Min_Close s = None ∧ Max_Close s = None)
  ∨ ∃ mn mx : R,
      Min_Close s = Some mn ∧ Max_Close s = Some mx
      ∧ is_Some (Total_Close s) ∧ is_Some (Avg_Close s)
      ∧ mn ∈ closes ∧ mx ∈ closes
      ∧ (∀ c, c ∈ closes → (mn <= c <= mx)%R)
      ∧ (∀ c, closes = [c] →
           Total_Close s = Some c ∧ Avg_Close s = Some c ∧ mn = c ∧ mx = c).
Proof.
  intros Hs. unfold summary_stats in Hs.
  apply list_elem_of_fmap in Hs as [[k g] [-> Hg]].
  unfold groupBy in Hg. apply list_elem_of_fmap in Hg as [k' [[= -> ->] _]].
  cbn [s_Stock Total_Close Avg_Close Min_Close Max_Close fst snd].
  rewrite sql_sum_omap, sql_min_omap, sql_max_omap. unfold sql_avg, sql_div.
  rewrite omap_fmap_id. unfold closes_of.
  destruct (omap Close (filter (λ r, Stock r = k') df)) as [|x xs] eqn:E.
  - left. simpl. by rewrite decide_True.
  - right. set (cs := x :: xs).
    assert (Hn : INR (length cs) ≠ 0%R) by (apply not_0_INR; done).
    rewrite decide_False by done.
    destruct (foldl_Rmin_spec x xs) as [Hmin_in Hmin].
    destruct (foldl_Rmax_spec x xs) as [Hmax_in Hmax].
    exists (foldl Rmin x xs), (foldl Rmax x xs).
    split_and!; try done.
    + intros c Hc. split; [by apply Hmin|by apply Hmax].
    + intros c [= -> ->]. unfold Rsum. simpl.
      split_and!; try done; f_equal; lra.
Qed.

Lemma summary_stats_bounds_witness :
  ∃ s, s ∈ summary_stats three_days ∧
    ∃ mn mx : R,
      Min_Close s = Some mn ∧ Max_Close s = Some mx
      ∧ mn ∈ closes_of three_days "AAPL" ∧ mx ∈ closes_of three_days "AAPL"
      ∧ ∀ c, c ∈ closes_of three_days "AAPL" → (mn <= c <= mx)%R.
Proof.
  set (cs := Close <$> three_days).
  set (s := mkSummary "AAPL" (sql_sum cs) (sql_avg cs) (sql_min cs) (sql_max cs)).
  assert (Hs : s ∈ summary_stats three_days) by apply list_elem_of_here.
  exists s. split; [exact Hs|].
  destruct (summary_stats_bounds three_days s Hs)
    as [[Hnil _]|(mn & mx & Hmn & Hmx & _ & _ & Hin & Hin' & Hb & _)].
  - discriminate Hnil.
  - exists mn, mx. done.
Defined.

Lemma rate_geb_antisym (a b : option R) :
  rate_geb a b = true → rate_geb b a = true → a = b.
Proof.
  destruct a as [x|], b as [y|]; simpl; try done.
  rewrite !bool_decide_eq_true. intros. f_equal. lra.
Qed.

(** [max] is not below any of its inputs, and is one of them. *)
Lemma sql_max_ge (vals : list (option R)) (v : option R) :
  v ∈ vals → rate_geb (sql_max vals) v = true.
Proof.
  intros Hv. destruct v as [x|]; [|by destruct (sql_max vals)].
  rewrite sql_max_omap.
  assert (Hx : x ∈ omap (λ v : option R, v) vals)
    by (apply list_elem_of_omap; eauto).
  destruct (omap _ vals) as [|y ys]; [by apply elem_of_nil in Hx|].
  simpl. apply bool_decide_eq_true. by apply foldl_Rmax_spec.
Qed.

Lemma sql_max_in (vals : list (option R)) : vals ≠ [] → sql_max vals ∈ vals.
Proof.
  intros Hne. rewrite sql_max_omap.
  destruct (omap (λ v : option R, v) vals) as [|y ys] eqn:E.
  - destruct vals as [|[x|] vals]; [done|by csimpl in E|apply list_elem_of_here].
  - destruct (foldl_Rmax_spec y ys) as [Hin _]. rewrite <- E in Hin.
    apply list_elem_of_omap in Hin as (v & Hv & ->). done.
Qed.

Lemma head_take_1 {A} (l : list A) : head (take 1 l) = head l.
Proof. by destruct l. Qed.

Lemma head_fmap {A B} (f : A → B) (l : list A) : head (f <$> l) = f <$> head l.
Proof. by destruct l. Qed.

(** X7: the highest daily return found by sorting the rows (line 113) is the
    one found through the per-symbol maxima (lines 245-256); there is none
    exactly on an empty frame, and it is not below any daily return of the
    frame. *)
Theorem highest_daily_return_agree (df : DataFrame) :
  let top := snd <$> highest_return df in
  top = Max_Daily_Return <$> head (get_stock_with_highest_daily_return df).2
  ∧ (top = None ↔ df = [])
  ∧ ∀ r x, r ∈ df → dcol "Daily_Return" r = Some x →
      ∃ M, top = Some (Some M) ∧ (x <= M)%R.
Proof.
  unfold highest_return, get_stock_with_highest_daily_return.
  cbn [snd]. rewrite head_take_1, !head_fmap, <- option_fmap_compose.
  set (DR := dcol "Daily_Return").
  destruct (orderBy_desc DR df) as [|a t] eqn:Et.
  { apply orderBy_desc_nil in Et as ->. simpl. split_and!; [done..|].
    intros r x Hr. by apply elem_of_nil in Hr. }
  destruct (orderBy_desc_head DR df a) as [Ha Htop]; [by rewrite Et|].
  simpl. split_and!.
  - set (smr := (λ g : string * DataFrame, mkStockMax g.1 (sql_max (DR <$> g.2)))
                <$> groupBy Stock df).
    assert (Hgrp : ∀ k, k ∈ distinct (Stock <$> df) →
              mkStockMax k (sql_max (DR <$> filter (λ r, Stock r = k) df)) ∈ smr).
    { intros k Hk. unfold smr, groupBy. rewrite <- list_fmap_compose.
      apply list_elem_of_fmap. by exists k. }
    assert (Hk : Stock a ∈ distinct (Stock <$> df)).
    { apply elem_of_distinct, list_elem_of_fmap. eauto. }
    destruct (orderBy_desc Max_Daily_Return smr) as [|g t'] eqn:Eg.
    { apply orderBy_desc_nil in Eg. specialize (Hgrp _ Hk).
      rewrite Eg in Hgrp. by apply elem_of_nil in Hgrp. }
    destruct (orderBy_desc_head Max_Daily_Return smr g) as [Hg Hmax];
      [by rewrite Eg|].
    simpl. f_equal. apply rate_geb_antisym.
    + unfold smr, groupBy in Hg. rewrite <- list_fmap_compose in Hg.
      apply list_elem_of_fmap in Hg as (k & -> & Hk'). simpl.
      pose proof (groupBy_group_nonempty Stock df k Hk') as Hne.
      assert (Hin : sql_max (DR <$> filter (λ r, Stock r = k) df)
                    ∈ DR <$> filter (λ r, Stock r = k) df).
      { apply sql_max_in. intros E. by apply fmap_nil_inv in E. }
      apply list_elem_of_fmap in Hin as (r & -> & Hr).
      apply list_elem_of_filter in Hr as [_ Hr]. by apply Htop.
    + eapply rate_geb_trans; [apply (Hmax _ (Hgrp _ Hk))|].
      simpl. apply sql_max_ge, list_elem_of_fmap. exists a.
      split; [done|]. by apply list_elem_of_filter.
  - split; [done|]. intros ->. by apply elem_of_nil in Ha.
  - intros r x Hr Hx. specialize (Htop r Hr).
    destruct (rate_geb_Some _ _ x Htop Hx) as (M & HM & Hle).
    exists M. by rewrite <- HM.
Qed.

Lemma highest_daily_return_agree_witness :
  ∃ M, snd <$> highest_return two_returns = Some (Some M) ∧ (1 / 10 <= M)%R.
Proof.
  apply (proj2 (proj2 (highest_daily_return_agree two_returns))
           (with_derived "Daily_Return" (Some (1 / 10)%R)
              (price_row "AAPL" (mkDate 2020 1 7) 11))).
  - apply list_elem_of_further, list_elem_of_here.
  - reflexivity.
Defined.

(** *** Average prices *)

(** X8: [calculate_average_prices_for_stock] with a symbol returns the rows
    of that symbol in the table it returns without one; the empty string,
    like [None], selects every symbol. *)
Theorem average_prices_of_one_stock (df : DataFrame) (stock : string) :
  stock ≠ "" →
  calculate_average_prices_for_stock df (Some stock)
  = filter (λ a, p_Stock a = stock) (calculate_average_prices_for_stock df None)
  ∧ calculate_average_prices_for_stock df (Some "")
    = calculate_average_prices_for_stock df None.
Proof.
  intros Hne. split; [|reflexivity].
  unfold calculate_average_prices_for_stock, truthy.
  assert (String.eqb stock "" = false) as -> by (by apply String.eqb_neq).
  cbn [negb].
  set (key := λ r : Row, (Stock r, by_Year_Month_Week r)).
  set (f := λ g : string * list (option Z) * DataFrame, mkAvgPrices _ _ _ _).
  pose proof (groupBy_filter key (λ k, k.1 = stock) df) as E.
  etrans; [|etrans; [exact (f_equal (fmap f) E)|]].
  - f_equal. f_equal. apply list_filter_iff. intros r. simpl.
    split; [by intros [= ->]|by intros ->].
  - symmetry. etrans; [apply (filter_fmap_key f)|].
    f_equal; try by apply list_filter_iff.
Qed.

Lemma average_prices_of_one_stock_witness :
  calculate_average_prices_for_stock one_common_day (Some "MSFT")
  = filter (λ a, p_Stock a = "MSFT")
      (calculate_average_prices_for_stock one_common_day None).
Proof.
  apply (proj1 (average_prices_of_one_stock one_common_day "MSFT"
                  ltac:(discriminate))).
Defined.

(** *** The application's call of [best_return_rate] *)

Lemma py_split_no_hyphen (s : string) :
  no_hyphen s = true → py_split "-"%char s = [s].
Proof.
  induction s as [|a s IH]; simpl; [done|].
  intros [Ha Hs]%andb_true_iff. apply negb_true_iff in Ha.
  by rewrite Ha, (IH Hs).
Qed.

Lemma py_split_hyphen (a rest : string) :
  no_hyphen a = true →
  py_split "-"%char (a +:+ "-" +:+ rest) = a :: py_split "-"%char rest.
Proof.
  induction a as [|c a IH]; simpl; [done|].
  intros [Hc Ha]%andb_true_iff. apply negb_true_iff in Hc.
  rewrite Hc. simpl in IH. by rewrite (IH Ha).
Qed.

Lemma reads_back_4 : Forall (λ n, reads_back 4 n = true) (seqZ 1 9999).
Proof. apply (bool_decide_unpack _). vm_compute. exact I. Qed.

Lemma reads_back_2 : Forall (λ n, reads_back 2 n = true) (seqZ 1 31).
Proof. apply (bool_decide_unpack _). vm_compute. exact I. Qed.

Lemma reads_back_spec (w : nat) (n : Z) :
  reads_back w n = true →
  py_int (fmt_0d w n) = inr n ∧ no_hyphen (fmt_0d w n) = true.
Proof.
  unfold reads_back. destruct (py_int (fmt_0d w n)) as [e|v]; [done|].
  intros [Hv Hh]%andb_true_iff. apply Z.eqb_eq in Hv. by subst.
Qed.

Lemma str_date_three_ints (dt : date) :
  date_in_range dt →
  three_ints (str_date dt) (d_year dt) (d_month dt) (d_day dt).
Proof.
  intros (Hy & Hm & Hd).
  pose proof reads_back_4 as H4. pose proof reads_back_2 as H2.
  rewrite Forall_forall in H4, H2.
  destruct (reads_back_spec 4 (d_year dt)) as [Iy Sy];
    [apply H4, elem_of_seqZ; lia|].
  destruct (reads_back_spec 2 (d_month dt)) as [Im Sm];
    [apply H2, elem_of_seqZ; lia|].
  destruct (reads_back_spec 2 (d_day dt)) as [Id Sd];
    [apply H2, elem_of_seqZ; lia|].
  exists (fmt_0d 4 (d_year dt)), (fmt_0d 2 (d_month dt)), (fmt_0d 2 (d_day dt)).
  split; [|done]. unfold str_date.
  rewrite (py_split_hyphen _ _ Sy), (py_split_hyphen _ _ Sm).
  by rewrite (py_split_no_hyphen _ Sd).
Qed.

(** X9: on a frame with the columns [Date], [Close] and [Stock] of the
    notebook's schema (the frames of this model; a CSV uploaded without them
    is outside it), the application's "Find Best Stock" returns: for every
    date of the date picker and both periods of the select box,
    [str(start_date)] parses back to the date's year, month and day, and
    the call returns the first row, by descending return rate, of the rows
    of the date's month (year). *)
Theorem find_best_stock_returns
    (df : DataFrame) (start_date : date) (period : string) :
  date_in_range start_date → period ∈ ["month"; "year"] →
  three_ints (str_date start_date)
    (d_year start_date) (d_month start_date) (d_day start_date)
  ∧ find_best_stock df start_date period
    = inr (take 1 (orderBy_Return_Rate_desc
                     (candidates df period (d_year start_date)
                                 (d_month start_date)))).
Proof.
  intros Hd Hp. pose proof (str_date_three_ints _ Hd) as H3.
  split; [done|]. unfold find_best_stock.
  rewrite orderBy_Return_Rate_desc_generic.
  eapply best_return_rate_candidates; [exact H3| |].
  - apply elem_of_cons in Hp as [->|Hp]; [by left|].
    apply list_elem_of_singleton in Hp as ->. by right.
  - destruct Hd as (Hy & Hm & _). unfold filter_longs, java_long. lia.
Qed.

Lemma find_best_stock_returns_witness :
  find_best_stock three_days (mkDate 2020 1 5) "month"
  = inr (take 1 (orderBy_Return_Rate_desc (candidates three_days "month" 2020 1))).
Proof.
  apply (proj2 (find_best_stock_returns three_days (mkDate 2020 1 5) "month"
                  ltac:(unfold date_in_range; simpl; lia)
                  ltac:(apply list_elem_of_here))).
Defined.

(** *** Correlation matrix *)

Lemma filter_none {A} (P : A → Prop) `{!∀ x, Decision (P x)} (l : list A) :
  (∀ x, x ∈ l → ¬ P x) → filter P l = [].
Proof.
  induction l as [|x l IH]; intros Hno; [done|].
  rewrite filter_cons_False by (apply Hno, list_elem_of_here).
  apply IH. intros y Hy. apply Hno. by apply list_elem_of_further.
Qed.

(** Among names that differ beyond case, a name matches itself only. *)
Lemma filter_same_key {A B} `{EqDecision B} (f : A → B) (l : list A) (x : A) :
  NoDup (f <$> l) → x ∈ l → filter (λ y, f y = f x) l = [x].
Proof.
  induction l as [|y l IH]; intros Hnd Hx; [by apply elem_of_nil in Hx|].
  rewrite fmap_cons in Hnd. apply NoDup_cons in Hnd as [Hy Hnd].
  apply elem_of_cons in Hx as [->|Hx].
  - rewrite filter_cons_True by done. f_equal. apply filter_none.
    intros z Hz Hfz. apply Hy. rewrite <- Hfz.
    apply list_elem_of_fmap. by exists z.
  - rewrite filter_cons_False; [by apply IH|].
    intros Hfy. apply Hy. rewrite Hfy. apply list_elem_of_fmap. by exists x.
Qed.

Lemma resolve_self (columns : list string) (c : string) :
  plain_name c → NoDup (string_lower <$> columns) → c ∈ columns →
  resolve columns c = inr c.
Proof.
  intros Hplain Hnd Hc. unfold resolve. rewrite decide_True by done.
  by rewrite (filter_same_key string_lower columns c Hnd Hc).
Qed.

Lemma stat_corr_plain (columns : list string) (df : DataFrame) (c1 c2 : string) :
  NoDup (string_lower <$> columns) →
  plain_name c1 → plain_name c2 → c1 ∈ columns → c2 ∈ columns →
  stat_corr columns df c1 c2 = inr (corr_of df c1 c2).
Proof.
  intros Hnd H1 H2 Hc1 Hc2. unfold stat_corr.
  by rewrite !resolve_self.
Qed.

(** The two nested loops go through [loop_pairs], doing [loop_body]. *)
Lemma correlation_matrix_flat (columns : list string) (df : DataFrame)
    (cols : list string) :
  correlation_matrix columns df cols
  = foldl (loop_body columns df) (inr ∅) (loop_pairs cols).
Proof.
  unfold correlation_matrix, loop_pairs.
  generalize (imap pair cols).
  generalize (inr ∅ : exn + gmap (string * string) jdouble).
  intros acc ics. revert acc.
  induction ics as [|ic ics IH]; intros acc; [done|].
  rewrite bind_cons, foldl_app, foldl_fmap. simpl. apply IH.
Qed.

(** A pair gone through holds a column and one that is not before it. *)
Lemma loop_pairs_order (cols : list string) (i : nat) (a b : string) :
  ((i, a), b) ∈ loop_pairs cols →
  cols !! i = Some a ∧ ∃ j, (i ≤ j)%nat ∧ cols !! j = Some b.
Proof.
  unfold loop_pairs. intros Hp.
  apply list_elem_of_bind in Hp as ([i' a'] & Hb & Hia).
  apply list_elem_of_fmap in Hb as (b' & [= -> -> ->] & Hb).
  apply list_elem_of_lookup_1 in Hia as [k Hk].
  rewrite list_lookup_imap in Hk.
  destruct (cols !! k) as [c|] eqn:Ek; [|done]. simpl in Hk.
  injection Hk as <- <-. split; [done|].
  apply list_elem_of_lookup_1 in Hb as [n Hn]. rewrite lookup_drop in Hn.
  exists (k + n)%nat. split; [lia|done].
Qed.

(** Every pair of columns is gone through in one order or the other. *)
Lemma loop_pairs_cover (cols : list string) (a b : string) :
  a ∈ cols → b ∈ cols →
  ∃ i, ((i, a), b) ∈ loop_pairs cols ∨ ((i, b), a) ∈ loop_pairs cols.
Proof.
  assert (Hgen : ∀ (i j : nat) a b,
            cols !! i = Some a → cols !! j = Some b → (i ≤ j)%nat →
            ((i, a), b) ∈ loop_pairs cols).
  { intros i j a' b' Hi Hj Hij. unfold loop_pairs.
    apply list_elem_of_bind. exists (i, a'). split.
    - apply list_elem_of_fmap. exists b'. split; [done|]. simpl.
      apply (list_elem_of_lookup_2 _ (j - i)%nat). rewrite lookup_drop.
      by replace (i + (j - i))%nat with j by lia.
    - apply (list_elem_of_lookup_2 _ i). by rewrite list_lookup_imap, Hi. }
  intros [i Hi]%list_elem_of_lookup_1 [j Hj]%list_elem_of_lookup_1.
  destruct (decide (i ≤ j)%nat).
  - exists i. left. by apply (Hgen i j).
  - exists j. right. apply (Hgen j i); [done..|lia].
Qed.

Lemma position_lookup (cols : list string) (i : nat) (c : string) :
  NoDup cols → cols !! i = Some c → position c cols = i.
Proof.
  intros Hnd Hi. unfold position.
  destruct (list_find (λ x, x = c) cols) as [[k y]|] eqn:E.
  - apply list_find_Some in E as (Hk & -> & _). simpl.
    by apply (NoDup_lookup cols k i c).
  - apply list_find_None in E. rewrite Forall_forall in E.
    exfalso. apply (E c); [|done]. by apply (list_elem_of_lookup_2 _ i).
Qed.

Lemma matrix_entry_diagonal (df : DataFrame) (cols : list string) (c : string) :
  matrix_entry df cols c c = JFinite 1.
Proof. unfold matrix_entry. by rewrite decide_True. Qed.

Lemma matrix_entry_before (df : DataFrame) (cols : list string)
    (i j : nat) (c1 c2 : string) :
  NoDup cols → cols !! i = Some c1 → cols !! j = Some c2 → (i < j)%nat →
  matrix_entry df cols c1 c2 = corr_of df c1 c2
  ∧ matrix_entry df cols c2 c1 = corr_of df c1 c2.
Proof.
  intros Hnd Hi Hj Hij. unfold matrix_entry.
  assert (c1 ≠ c2).
  { intros ->. pose proof (NoDup_lookup cols i j c2 Hnd Hi Hj). lia. }
  rewrite (position_lookup cols i c1), (position_lookup cols j c2) by done.
  rewrite !(decide_False (P := c1 = c2)), !(decide_False (P := c2 = c1)) by done.
  rewrite decide_True by done. split; [done|].
  rewrite decide_False by lia. done.
Qed.

(** The table is symmetric: both entries of a pair are the one double that
    was stored under both keys. *)
Lemma matrix_entry_sym (df : DataFrame) (cols : list string) (c1 c2 : string) :
  NoDup cols → c1 ∈ cols → c2 ∈ cols →
  matrix_entry df cols c1 c2 = matrix_entry df cols c2 c1.
Proof.
  intros Hnd [i Hi]%list_elem_of_lookup_1 [j Hj]%list_elem_of_lookup_1.
  destruct (decide (i = j)) as [->|Hij].
  - by simplify_eq.
  - destruct (decide (i < j)%nat).
    + destruct (matrix_entry_before df cols i j c1 c2) as [-> ->]; done.
    + destruct (matrix_entry_before df cols j i c2 c1) as [-> ->];
        [done..|lia|done].
Qed.

(** What a pair gone through stores, when every name resolves. *)
Lemma loop_value_entry (columns : list string) (df : DataFrame)
    (cols : list string) (p : (nat * string) * string) :
  NoDup (string_lower <$> columns) → cols ⊆ columns → NoDup cols →
  Forall plain_name cols → p ∈ loop_pairs cols →
  loop_value columns df p = inr (matrix_entry df cols p.1.2 p.2)
  ∧ matrix_entry df cols p.2 p.1.2 = matrix_entry df cols p.1.2 p.2.
Proof.
  intros Hnd Hsub Hnd' Hplain Hp. destruct p as [[i a] b].
  apply loop_pairs_order in Hp as (Hi & j & Hij & Hj). simpl.
  assert (Ha : a ∈ cols) by by apply (list_elem_of_lookup_2 _ i).
  assert (Hb : b ∈ cols) by by apply (list_elem_of_lookup_2 _ j).
  split; [|by apply matrix_entry_sym].
  unfold loop_value. simpl. destruct (decide (a = b)) as [->|Hab].
  - by rewrite matrix_entry_diagonal.
  - rewrite Forall_forall in Hplain.
    rewrite stat_corr_plain by auto. f_equal. symmetry.
    apply (matrix_entry_before df cols i j a b); [done..|].
    destruct (decide (i = j)) as [->|]; [|lia]. by simplify_eq.
Qed.

(** After the loops both orders of every pair gone through are keys of the
    dictionary. *)
Lemma loop_body_dom (columns : list string) (df : DataFrame)
    (items : list ((nat * string) * string))
    (m : gmap (string * string) jdouble) :
  foldl (loop_body columns df) (inr ∅) items = inr m →
  ∀ p, p ∈ items →
    is_Some (m !! (p.1.2, p.2)) ∧ is_Some (m !! (p.2, p.1.2)).
Proof.
  revert m. induction items as [|x items IH] using rev_ind; intros m Hm p Hp.
  - by apply elem_of_nil in Hp.
  - rewrite foldl_snoc in Hm. unfold loop_body at 1 in Hm.
    destruct (foldl (loop_body columns df) (inr ∅) items) as [e|m0]; [done|].
    destruct (loop_value columns df x) as [e|v]; [done|].
    injection Hm as <-. rewrite !lookup_insert_is_Some'.
    apply elem_of_app in Hp as [Hp|Hp].
    + destruct (IH m0 eq_refl p Hp). tauto.
    + apply list_elem_of_singleton in Hp as ->. tauto.
Qed.

(** When every name resolves the loops end, and every value of the
    dictionary is the entry of its key. *)
Lemma loop_body_values (columns : list string) (df : DataFrame)
    (cols : list string) (items : list ((nat * string) * string)) :
  (∀ p, p ∈ items →
     loop_value columns df p = inr (matrix_entry df cols p.1.2 p.2)
     ∧ matrix_entry df cols p.2 p.1.2 = matrix_entry df cols p.1.2 p.2) →
  ∃ m, foldl (loop_body columns df) (inr ∅) items = inr m
       ∧ ∀ k v, m !! k = Some v → v = matrix_entry df cols k.1 k.2.
Proof.
  induction items as [|x items IH] using rev_ind; intros H.
  - exists ∅. split; [done|]. intros k v. by rewrite lookup_empty.
  - destruct IH as (m0 & Hm0 & Hval).
    { intros p Hp. apply H, elem_of_app. by left. }
    destruct (H x) as [Hx Hsym]; [apply elem_of_app; right; apply list_elem_of_here|].
    rewrite foldl_snoc, Hm0. unfold loop_body. rewrite Hx.
    eexists. split; [reflexivity|]. intros k v.
    destruct (decide ((x.2, x.1.2) = k)) as [<-|Hk1].
    { rewrite lookup_insert_eq. by intros [= <-]. }
    rewrite lookup_insert_ne by done.
    destruct (decide ((x.1.2, x.2) = k)) as [<-|Hk2].
    { rewrite lookup_insert_eq. by intros [= <-]. }
    rewrite lookup_insert_ne by done. apply Hval.
Qed.

Lemma for_each_inr {A B E} (body : A → E + B) (g : A → B) (l : list A) :
  (∀ x, x ∈ l → body x = inr (g x)) → for_each body l = inr (g <$> l).
Proof.
  induction l as [|x l IH]; intros H; [done|]. simpl.
  rewrite (H x) by apply list_elem_of_here.
  rewrite IH; [done|]. intros y Hy. apply H. by apply list_elem_of_further.
Qed.

(** The print loops find every key they look up. *)
Lemma print_loops_inr (m : gmap (string * string) jdouble) (cols : list string) :
  (∀ a b, a ∈ cols → b ∈ cols → is_Some (m !! (a, b))) →
  ∃ rows,
    for_each (λ col1,
        match for_each (λ col2,
                match m !! (col1, col2) with
                | Some v => inr v
                | None => inl (KeyError (col1, col2))
                end) cols with
        | inl e => inl e
        | inr vs => inr (col1, vs)
        end) cols
    = inr rows
    ∧ rows = (λ c1, (c1, (λ c2, default JNaN (m !! (c1, c2))) <$> cols)) <$> cols.
Proof.
  intros Hdom. eexists. split; [|reflexivity].
  apply (for_each_inr _ (λ c1, (c1, (λ c2, default JNaN (m !! (c1, c2))) <$> cols))).
  intros c1 H1.
  rewrite (for_each_inr _ (λ c2, default JNaN (m !! (c1, c2)))); [done|].
  intros c2 H2. by destruct (Hdom c1 c2 H1 H2) as [v ->].
Qed.

Lemma numeric_cols_subseteq (dtypes : list (string * string)) :
  numeric_cols dtypes ⊆ dtypes.*1.
Proof.
  intros c Hc. unfold numeric_cols in Hc.
  apply list_elem_of_fmap in Hc as (cd & -> & Hcd).
  apply list_elem_of_filter in Hcd as [_ Hcd].
  apply list_elem_of_fmap. by exists cd.
Qed.

Lemma numeric_cols_NoDup (dtypes : list (string * string)) :
  NoDup dtypes.*1 → NoDup (numeric_cols dtypes).
Proof.
  unfold numeric_cols. induction dtypes as [|cd dtypes IH]; [done|].
  rewrite fmap_cons. intros [Hcd Hnd]%NoDup_cons.
  rewrite filter_cons. case_decide; [|by apply IH].
  rewrite fmap_cons. apply NoDup_cons. split; [|by apply IH].
  intros Hin. apply Hcd. by apply (numeric_cols_subseteq dtypes).
Qed.

(** X10: [calculate_correlation_matrix] never raises a [KeyError] in its
    print loops.  When the numeric column names hold neither dot nor
    backtick and the names of the frame's columns differ beyond case, so
    that [stat.corr] resolves each name, it prints the message only if there
    is no numeric column, and otherwise one row per numeric column with one
    value per numeric column: 1.0 on the diagonal, and for two columns the
    one double [stat.corr] computed for them, the column that comes first as
    its first argument, stored under both keys: the table is symmetric by
    construction. *)
Theorem correlation_matrix_table (dtypes : list (string * string))
    (df : DataFrame) :
  let cols := numeric_cols dtypes in
  (∀ key, calculate_correlation_matrix dtypes df ≠ inl (KeyError key)) ∧
  (Forall plain_name cols → NoDup (string_lower <$> dtypes.*1) →
   calculate_correlation_matrix dtypes df
   = inr (if decide (cols = []) then None
          else Some ((λ c1, (c1, matrix_entry df cols c1 <$> cols)) <$> cols))
   ∧ (∀ c, matrix_entry df cols c c = JFinite 1)
   ∧ (∀ c1 c2, c1 ∈ cols → c2 ∈ cols →
        matrix_entry df cols c1 c2 = matrix_entry df cols c2 c1)
   ∧ (∀ i j c1 c2, cols !! i = Some c1 → cols !! j = Some c2 → (i < j)%nat →
        matrix_entry df cols c1 c2 = corr_of df c1 c2)).
Proof.
  intros cols. split.
  - intros key. unfold calculate_correlation_matrix. fold cols.
    destruct (decide (cols = [])); [done|].
    rewrite correlation_matrix_flat.
    destruct (foldl _ _ _) as [e|m] eqn:Em; [done|].
    destruct (print_loops_inr m cols) as (rows & -> & _); [|done].
    intros a b Ha Hb.
    destruct (loop_pairs_cover cols a b Ha Hb) as [i [Hp|Hp]];
      apply (loop_body_dom _ _ _ _ Em _ Hp).
  - intros Hplain Hnd.
    assert (Hnd1 : NoDup dtypes.*1) by by apply NoDup_fmap_1 in Hnd.
    assert (Hnd' : NoDup cols) by by apply numeric_cols_NoDup.
    split; [|split; [|split]].
    + unfold calculate_correlation_matrix. fold cols.
      destruct (decide (cols = [])); [done|].
      rewrite correlation_matrix_flat.
      destruct (loop_body_values dtypes.*1 df cols (loop_pairs cols))
        as (m & Em & Hval).
      { intros p Hp. apply loop_value_entry; try done.
        apply numeric_cols_subseteq. }
      rewrite Em.
      assert (Hdom : ∀ a b, a ∈ cols → b ∈ cols → is_Some (m !! (a, b))).
      { intros a b Ha Hb.
        destruct (loop_pairs_cover cols a b Ha Hb) as [i [Hp|Hp]];
          apply (loop_body_dom _ _ _ _ Em _ Hp). }
      destruct (print_loops_inr m cols Hdom) as (rows & -> & ->).
      do 2 f_equal. apply list_fmap_ext. intros i c1 Hc1. f_equal.
      apply list_fmap_ext. intros j c2 Hc2.
      destruct (Hdom c1 c2) as [v Ev];
        [by apply (list_elem_of_lookup_2 _ i)|by apply (list_elem_of_lookup_2 _ j)|].
      rewrite Ev. simpl. apply (Hval _ _ Ev).
    + intros c. apply matrix_entry_diagonal.
    + intros c1 c2. by apply matrix_entry_sym.
    + intros i j c1 c2 Hi Hj Hij.
      by apply (matrix_entry_before df cols i j c1 c2).
Qed.

Lemma correlation_matrix_table_witness :
  calculate_correlation_matrix open_close_dtypes three_days
  = inr (Some [("Open", [JFinite 1; corr_of three_days "Open" "Close"]);
               ("Close", [corr_of three_days "Open" "Close"; JFinite 1])]).
Proof.
  destruct (correlation_matrix_table open_close_dtypes three_days) as [_ H].
  destruct H as (-> & _).
  - apply (bool_decide_unpack _). vm_compute. exact I.
  - apply (bool_decide_unpack _). vm_compute. exact I.
  - reflexivity.
Defined.


(** *** The period between data points *)

Lemma date_leb_antisym (a b : date) :
  date_leb a b = true → date_leb b a = true → a = b.
Proof.
  destruct a as [y1 m1 d1], b as [y2 m2 d2]. unfold date_leb. simpl.
  intros H1 H2. Zbool; try done; try lia.
  all: try apply Z.leb_le in H1; try apply Z.leb_le in H2; try lia.
  all: f_equal; lia.
Qed.

Lemma odate_leb_antisym (a b : option date) :
  odate_leb a b = true → odate_leb b a = true → a = b.
Proof.
  destruct a as [x|], b as [y|]; simpl; try done.
  intros H1 H2. f_equal. by apply date_leb_antisym.
Qed.

Lemma date_diffs_from (prev : option date) (p : DataFrame) :
  zip_with datediff (Date <$> p) (take (length p) (prev :: (Date <$> p)))
  = diffs_from prev p.
Proof.
  revert prev. induction p as [|r p IH]; intros prev; [done|].
  simpl. f_equal. apply IH.
Qed.

Lemma date_diffs_unfold (p : DataFrame) : date_diffs p = diffs_from None p.
Proof. apply date_diffs_from. Qed.

Lemma datediff_same (d : option date) : is_Some d → datediff d d = Some 0.
Proof. intros [x ->]. simpl. f_equal. lia. Qed.

(** In a partition in date order whose dates are shared, a change of date
    is followed by a row of the same date. *)
Lemma zero_follows_diffs_from (prev : option date) (p : DataFrame) :
  chronological p →
  Forall (λ r, is_Some (Date r)) p →
  Forall (λ r, odate_leb prev (Date r) = true) p →
  (∀ r, r ∈ p → Date r = prev ∨ date_shared p r) →
  zero_follows (diffs_from prev p).
Proof.
  revert prev. induction p as [|r p IH]; intros prev Hs Hd Hprev Hsh; [done|].
  apply StronglySorted_inv in Hs as [Hs Hr].
  apply Forall_cons in Hd as [Hdr Hd].
  apply Forall_cons in Hprev as [Hpr Hprev].
  rewrite Forall_forall in Hr.
  simpl. split.
  - intros Hne.
    assert (Hrp : Date r ≠ prev).
    { intros E. apply Hne. rewrite <- E. by apply datediff_same. }
    destruct (Hsh r (list_elem_of_here _ _)) as [E|H2]; [done|].
    unfold date_shared in H2. rewrite filter_cons_True in H2 by done.
    simpl in H2.
    destruct p as [|r2 p']; [simpl in H2; lia|].
    simpl. f_equal.
    assert (Hex : ∃ r', r' ∈ r2 :: p' ∧ Date r' = Date r).
    { destruct (filter (λ r', Date r' = Date r) (r2 :: p')) as [|r' l] eqn:E;
        [simpl in H2; lia|].
      assert (Hin : r' ∈ filter (λ r', Date r' = Date r) (r2 :: p'))
        by (rewrite E; apply list_elem_of_here).
      apply list_elem_of_filter in Hin as [Hdate Hin]. by exists r'. }
    destruct Hex as (r' & Hin & Hr').
    assert (Date r2 = Date r) as ->.
    { apply odate_leb_antisym.
      - rewrite <- Hr'. apply elem_of_cons in Hin as [->|Hin].
        + destruct (Date r2) as [x|]; [apply date_leb_refl|done].
        + apply StronglySorted_inv in Hs as [_ H2']. rewrite Forall_forall in H2'.
          by apply H2'.
      - apply Hr, list_elem_of_here. }
    by apply datediff_same.
  - apply IH; [done..| |].
    + apply Forall_forall. intros r' Hr'. by apply Hr.
    + intros r' Hr'. destruct (decide (Date r' = Date r)) as [|Hne]; [by left|].
      right. destruct (Hsh r' (list_elem_of_further _ _ _ Hr')) as [E|H2].
      * exfalso. apply Hne. apply odate_leb_antisym; [|by apply Hr].
        rewrite E. done.
      * unfold date_shared in *. rewrite filter_cons_False in H2; [done|].
        congruence.
Qed.

Lemma filter_length_split {A} (P : A → Prop) `{!∀ x, Decision (P x)}
    (l : list A) :
  (length (filter P l) + length (filter (λ x, ¬ P x) l) = length l)%nat.
Proof.
  induction l as [|x l IH]; [done|].
  rewrite !filter_cons. destruct (decide (P x)).
  - rewrite decide_False by tauto. simpl. lia.
  - rewrite decide_True by done. simpl. lia.
Qed.

Lemma filter_length_le {A} (P Q : A → Prop) `{!∀ x, Decision (P x)}
    `{!∀ x, Decision (Q x)} (l : list A) :
  (∀ x, P x → Q x) → (length (filter P l) ≤ length (filter Q l))%nat.
Proof.
  intros HPQ. induction l as [|x l IH]; [done|].
  rewrite !filter_cons. destruct (decide (P x)).
  - rewrite decide_True by auto. simpl. lia.
  - destruct (decide (Q x)); simpl; lia.
Qed.

(** Where a zero follows every other entry, the zeros are at least as many
    as the other entries. *)
Lemma zero_follows_count (l : list (option Z)) :
  zero_follows l →
  (length (filter (λ v, v ≠ Some 0%Z) l) ≤ length (filter (λ v, v = Some 0%Z) l))%nat
  ∧ (head l = Some (Some 0) →
     (length (filter (λ v, v ≠ Some 0%Z) l) + 1
      ≤ length (filter (λ v, v = Some 0%Z) l))%nat).
Proof.
  induction l as [|x l IH]; [done|].
  intros [Hx Hl]. destruct (IH Hl) as [IH1 IH2].
  rewrite !filter_cons. destruct (decide (x = Some 0)) as [->|Hne].
  - rewrite decide_False by (intros H; by apply H). simpl. lia.
  - rewrite decide_True by done. specialize (IH2 (Hx Hne)). simpl.
    split; [lia|]. intros [= E]. done.
Qed.

Lemma diffs_from_Some (prev : option date) (p : DataFrame) :
  is_Some prev → Forall (λ r, is_Some (Date r)) p →
  Forall is_Some (diffs_from prev p).
Proof.
  revert prev. induction p as [|r p IH]; intros prev Hprev Hd; [done|].
  apply Forall_cons in Hd as [[x Hx] Hd]. destruct Hprev as [y ->].
  simpl. constructor.
  - rewrite Hx. by eexists.
  - apply IH; [by rewrite Hx|done].
Qed.

(** In the [Date_Diff] column of a partition in date order, of at least
    three rows, whose dates are not NULL and shared, 0 occurs more often
    than any other value. *)
Lemma date_diffs_zero_most (p : DataFrame) (v : option Z) :
  chronological p → (3 ≤ length p)%nat →
  (∀ r, r ∈ p → is_Some (Date r) ∧ date_shared p r) →
  v ≠ Some 0 →
  (length (filter (λ w, w = v) (date_diffs p))
   < length (filter (λ w, w = Some 0%Z) (date_diffs p)))%nat.
Proof.
  intros Hs Hlen Hp Hv.
  assert (Hd : Forall (λ r, is_Some (Date r)) p).
  { apply Forall_forall. intros r Hr. by apply Hp. }
  pose proof (zero_follows_diffs_from None p Hs Hd) as Hz.
  rewrite date_diffs_unfold.
  destruct (zero_follows_count (diffs_from None p)) as [Hcount _].
  { apply Hz; [by apply Forall_forall|]. intros r Hr. right. by apply Hp. }
  destruct p as [|r p]; [simpl in Hlen; lia|].
  apply Forall_cons in Hd as [Hr Hd].
  pose proof (diffs_from_Some (Date r) p Hr Hd) as Hsome.
  assert (Hl : length (diffs_from (Date r) p) = length p).
  { clear. generalize (Date r). induction p as [|r' p IH]; intros d; [done|].
    simpl. by rewrite IH. }
  pose proof (filter_length_split (λ w, w = Some 0%Z) (diffs_from (Date r) p))
    as Hsplit.
  simpl in Hlen. simpl diffs_from in *.
  assert (Hnone : datediff (Date r) None = None) by (by destruct (Date r)).
  rewrite Hnone in *.
  rewrite filter_cons_True in Hcount by done.
  rewrite (filter_cons_False (λ w, w = Some 0%Z)) in Hcount by done.
  rewrite (filter_cons_False (λ w, w = Some 0%Z)) by done.
  simpl in Hcount.
  destruct v as [w|].
  - rewrite filter_cons_False by done.
    pose proof (filter_length_le (λ x, x = Some w) (λ x, x ≠ Some 0%Z)
                  (diffs_from (Date r) p)) as Hle.
    assert (length (filter (λ x, x = Some w) (diffs_from (Date r) p))
            ≤ length (filter (λ x, x ≠ Some 0%Z) (diffs_from (Date r) p)))%nat.
    { apply Hle. intros x ->. done. }
    lia.
  - rewrite filter_cons_True by done.
    rewrite (filter_Forall_nil (λ w, w = None)); [simpl; lia|].
    eapply Forall_impl; [exact Hsome|]. intros x [y ->]. done.
Qed.

Lemma elem_of_groupBy_count `{EqDecision K} (vals : list K) (k : K) (c : Z) :
  (k, c) ∈ groupBy_count vals
  ↔ k ∈ vals ∧ c = Z.of_nat (length (filter (λ v, v = k) vals)).
Proof.
  unfold groupBy_count. rewrite list_elem_of_fmap. split.
  - intros (k' & [= -> ->] & Hk). rewrite elem_of_distinct in Hk. by split.
  - intros [Hk ->]. exists k. split; [done|]. by apply elem_of_distinct.
Qed.

Lemma count_desc_total (a b : option Z * Z) :
  (b.2 <=? a.2) = false → (a.2 <=? b.2) = true.
Proof. intros H. apply Z.leb_gt in H. apply Z.leb_le. lia. Qed.

Lemma count_desc_trans (a b c : option Z * Z) :
  (b.2 <=? a.2) = true → (c.2 <=? b.2) = true → (c.2 <=? a.2) = true.
Proof. rewrite !Z.leb_le. lia. Qed.

(** X11: on an empty frame [deduce_period] raises a [TypeError]; on any
    other frame it returns.  It returns 0 days for every frame of at least
    three rows whose dates are not NULL and are each the date of two rows or
    more, as in a frame of several symbols on the same trading days. *)
Theorem deduce_period_shared_dates (df : DataFrame) :
  (df = [] → ∃ msg, deduce_period df = inl (TypeError msg))
  ∧ (df ≠ [] → ∃ period, deduce_period df = inr period)
  ∧ ((3 ≤ length df)%nat →
     (∀ r, r ∈ df → is_Some (Date r) ∧ date_shared df r) →
     deduce_period df = inr (Some 0)).
Proof.
  split; [intros ->; by eexists|].
  unfold deduce_period.
  set (p := orderBy_Date (orderBy_Date df)).
  assert (Hperm : p ≡ₚ df).
  { unfold p. by rewrite !orderBy_Date_Permutation. }
  change (zip_with datediff (Date <$> p) (lag_Date p)) with (date_diffs p).
  set (geb := λ a b : option Z * Z, b.2 <=? a.2).
  assert (Hlen : length (date_diffs p) = length p).
  { unfold date_diffs, lag_Date.
    rewrite length_zip_with, length_fmap, length_take. simpl.
    rewrite length_fmap. lia. }
  split.
  - intros Hne.
    destruct (head (sort_by geb (groupBy_count (date_diffs p)))) as [a|] eqn:E;
      [by eexists|].
    exfalso. apply head_None, sort_by_nil, fmap_nil_inv in E.
    destruct (date_diffs p) as [|x l] eqn:ED; [|done].
    simpl in Hlen. apply Hne, Permutation_nil_r. rewrite <- Hperm.
    by destruct p.
  - intros H3 Hsh.
    assert (Hs : chronological p) by apply orderBy_Date_chronological.
    assert (Hp : ∀ r, r ∈ p → is_Some (Date r) ∧ date_shared p r).
    { intros r Hr. rewrite Hperm in Hr. destruct (Hsh r Hr) as [Hd H2].
      split; [done|]. unfold date_shared in *. by rewrite Hperm. }
    assert (H3p : (3 ≤ length p)%nat) by (by rewrite Hperm).
    pose proof (λ v, date_diffs_zero_most p v Hs H3p Hp) as Hmost.
    assert (H0 : Some 0 ∈ date_diffs p).
    { specialize (Hmost None ltac:(done)).
      destruct (filter (λ w, w = Some 0) (date_diffs p)) as [|x l] eqn:E;
        [simpl in Hmost; lia|].
      assert (Hx : x ∈ filter (λ w, w = Some 0) (date_diffs p))
        by (rewrite E; apply list_elem_of_here).
      by apply list_elem_of_filter in Hx as [-> Hx]. }
    destruct (head (sort_by geb (groupBy_count (date_diffs p))))
      as [[k c]|] eqn:E.
    + apply (sort_by_head geb count_desc_total count_desc_trans) in E
        as [Hin Hmax].
      apply elem_of_groupBy_count in Hin as [Hk ->].
      specialize (Hmax (Some 0, Z.of_nat (length (filter (λ w, w = Some 0)
                                                   (date_diffs p))))).
      unfold geb in Hmax. simpl in Hmax.
      rewrite Z.leb_le in Hmax.
      destruct (decide (k = Some 0)) as [->|Hk0]; [done|].
      specialize (Hmost k Hk0).
      assert (Hle := Hmax ltac:(by apply elem_of_groupBy_count)). lia.
    + apply head_None, sort_by_nil, fmap_nil_inv in E.
      assert (Hd : Some 0 ∈ distinct (date_diffs p)) by (by apply elem_of_distinct).
      rewrite E in Hd. by apply elem_of_nil in Hd.
Qed.

Lemma deduce_period_shared_dates_witness :
  deduce_period two_common_days = inr (Some 0).
Proof.
  apply (proj2 (proj2 (deduce_period_shared_dates two_common_days))).
  - simpl. lia.
  - intros r Hr. unfold date_shared.
    repeat (apply elem_of_cons in Hr as [->|Hr]); [..|by apply elem_of_nil in Hr];
      (split; [by eexists|vm_compute; lia]).
Defined.


(** *** Symbols without a common day *)

Lemma join_on_Date_nil (a b : list (option date * option R)) :
  (∀ ra rb d, ra ∈ a → rb ∈ b → ra.1 = Some d → rb.1 ≠ Some d) →
  join_on_Date a b = [].
Proof.
  intros H. rewrite join_on_Date_unfold.
  destruct (a ≫= λ ra, omap (join_match ra) b) as [|x l] eqn:E; [done|].
  assert (Hx : x ∈ a ≫= λ ra, omap (join_match ra) b)
    by (rewrite E; apply list_elem_of_here).
  apply list_elem_of_bind in Hx as (ra & Hx & Hra).
  apply list_elem_of_omap in Hx as (rb & Hrb & Hm).
  unfold join_match in Hm.
  destruct (ra.1) as [d1|] eqn:E1; [|done].
  destruct (rb.1) as [d2|] eqn:E2; [|done].
  case_decide as Hd; [|done]. subst d2.
  by destruct (H ra rb d1 Hra Hrb E1).
Qed.

(** X12: when the two symbols hold neither dot nor backtick, their aliases
    differ, and no row of the first symbol has the date of a row of the
    second (one of the symbols does not occur in the frame, as a symbol
    mistyped in its letters, or their days do not meet),
    [calculate_correlation_between_stocks] returns NaN: it neither raises
    nor reports the empty sample. *)
Theorem correlation_without_common_day
    (df : DataFrame) (stock1 stock2 : string) (column : field) :
  plain_name stock1 → plain_name stock2 →
  ¬ ambiguous column stock1 stock2 →
  (∀ r1 r2 d, r1 ∈ df → r2 ∈ df → Stock r1 = stock1 → Stock r2 = stock2 →
     Date r1 = Some d → Date r2 ≠ Some d) →
  aligned_sample df stock1 stock2 column = []
  ∧ calculate_correlation_between_stocks df stock1 stock2 column = inr JNaN.
Proof.
  intros Hp1 Hp2 Hna Hdays.
  assert (Hnil : aligned_sample df stock1 stock2 column = []).
  { unfold aligned_sample. rewrite join_on_Date_nil; [done|].
    intros ra rb d Hra Hrb. unfold select_stock in Hra, Hrb.
    apply list_elem_of_fmap in Hra as (r1 & -> & Hr1).
    apply list_elem_of_fmap in Hrb as (r2 & -> & Hr2).
    apply list_elem_of_filter in Hr1 as [Hs1 Hr1].
    apply list_elem_of_filter in Hr2 as [Hs2 Hr2].
    simpl. by apply Hdays. }
  split; [done|].
  rewrite calculate_correlation_unfold by done. f_equal.
  apply pearsonCorrelation_degenerate. left. rewrite Hnil. simpl. lia.
Qed.

Lemma correlation_without_common_day_witness :
  calculate_correlation_between_stocks three_days "AAPL" "APPL" FClose
  = inr JNaN.
Proof.
  apply (proj2 (correlation_without_common_day three_days "AAPL" "APPL" FClose
    plain_AAPL
    ltac:(apply (bool_decide_unpack _); vm_compute; exact I)
    ltac:(unfold ambiguous; vm_compute; discriminate)
    ltac:(intros r1 r2 d _ Hr2 _ Hs _; exfalso;
          repeat (apply elem_of_cons in Hr2 as [->|Hr2]);
          [discriminate Hs..|by apply elem_of_nil in Hr2]))).
Defined.


(** *** Dataset Builder, further *)

Lemma filter_mjoin {A} (P : A → Prop) `{!∀ x, Decision (P x)}
    (ls : list (list A)) :
  filter P (mjoin ls) = mjoin (filter P <$> ls).
Proof.
  induction ls as [|l ls IH]; [done|].
  rewrite fmap_cons, !mjoin_cons, filter_app. by rewrite IH.
Qed.

Lemma dropna_with_Stock (stock : string) (rows : DataFrame) :
  dropna (with_Stock stock <$> rows) = with_Stock stock <$> dropna rows.
Proof.
  unfold dropna. induction rows as [|r rows IH]; [done|].
  rewrite fmap_cons, !filter_cons.
  destruct (decide (no_null r)) as [Hr|Hr].
  - rewrite decide_True by exact Hr. by rewrite fmap_cons, IH.
  - rewrite decide_False by exact Hr. apply IH.
Qed.

Lemma fmap_to_date (df : DataFrame) : to_date <$> df = df.
Proof. induction df as [|r df IH]; [done|]. by rewrite fmap_cons, IH. Qed.

Lemma dropna_idemp (df : DataFrame) : dropna (dropna df) = dropna df.
Proof.
  unfold dropna. rewrite list_filter_filter. apply list_filter_iff. tauto.
Qed.

(** X13: the dataset built from the files is the union of the files' frames
    after each has lost its rows with a NULL and got its symbol: the rows
    of a file keep their order, the files theirs, and a row is kept as
    often as it occurs.  Each row carries the symbol of a file, and a second
    [dropna] changes nothing. *)
Theorem build_dataset_per_source (sources : list (string * DataFrame)) :
  build_dataset sources
  = mjoin ((λ sr : string * DataFrame, with_Stock sr.1 <$> dropna sr.2)
           <$> sources)
  ∧ Forall (λ r, Stock r ∈ sources.*1) (build_dataset sources)
  ∧ dropna (build_dataset sources) = build_dataset sources.
Proof.
  assert (E : build_dataset sources
    = mjoin ((λ sr : string * DataFrame, with_Stock sr.1 <$> dropna sr.2)
             <$> sources)).
  { unfold build_dataset, union_all. rewrite fmap_to_date.
    unfold dropna at 1. rewrite filter_mjoin.
    rewrite <- list_fmap_compose. f_equal. apply list_fmap_ext.
    intros i [s rows] _. apply dropna_with_Stock. }
  split; [exact E|]. split.
  - rewrite E. apply Forall_forall. intros r Hr.
    apply list_elem_of_join in Hr as (l & Hr & Hl).
    apply list_elem_of_fmap in Hl as ([s rows] & -> & Hs).
    apply list_elem_of_fmap in Hr as (r0 & -> & _). simpl.
    apply list_elem_of_fmap. by exists (s, rows).
  - unfold build_dataset. apply dropna_idemp.
Qed.

(** *** Missing values *)

Lemma wrap64_small (x : Z) : - 2 ^ 63 ≤ x < 2 ^ 63 → wrap64 x = x.
Proof. intros H. unfold wrap64. rewrite Z.mod_small; lia. Qed.

Lemma missing_foldl (c : string) (df : DataFrame) (a : Z) :
  0 ≤ a → a + Z.of_nat (length df) < 2 ^ 63 →
  foldl (λ acc v, match v with
                  | None => acc
                  | Some x => Some (wrap64 (default 0 acc + x))
                  end) (Some a) ((λ r, Some (Z.b2z (isNull c r))) <$> df)
  = Some (a + Z.of_nat (length (nulls c df))).
Proof.
  revert a. induction df as [|r df IH]; intros a Ha Hb.
  - simpl. f_equal. lia.
  - rewrite fmap_cons. cbn [foldl default]. unfold nulls in *.
    rewrite filter_cons. simpl length in Hb.
    destruct (isNull c r) eqn:E.
    + rewrite decide_True by done. cbn [Z.b2z length]. unfold Datatypes.id.
      rewrite wrap64_small by lia. rewrite IH by lia. f_equal. lia.
    + rewrite decide_False by done. cbn [Z.b2z]. unfold Datatypes.id.
      rewrite wrap64_small by lia. rewrite IH by lia. f_equal. lia.
Qed.

(** On a frame with rows, fewer than 2^63, the sum is the number of rows
    whose column is NULL; on a frame without rows it is NULL. *)
Lemma missing_count (c : string) (df : DataFrame) :
  df ≠ [] → Z.of_nat (length df) < 2 ^ 63 →
  missing c df = Some (Z.of_nat (length (nulls c df))).
Proof.
  intros Hne Hb. destruct df as [|r df]; [done|].
  unfold missing, sql_sum_long. rewrite fmap_cons. cbn [foldl default].
  simpl length in Hb. unfold nulls. rewrite filter_cons.
  destruct (isNull c r) eqn:E.
  - rewrite decide_True by done. cbn [Z.b2z length].
    rewrite wrap64_small by lia. rewrite missing_foldl by lia.
    f_equal. unfold nulls. lia.
  - rewrite decide_False by done. cbn [Z.b2z].
    rewrite wrap64_small by lia. rewrite missing_foldl by lia.
    f_equal.
Qed.

Lemma sql_avg_is_Some (vals : list (option R)) (x : R) :
  Some x ∈ vals → is_Some (sql_avg vals).
Proof.
  intros Hx. unfold sql_avg, sql_div.
  assert (Hin : x ∈ omap (λ v : option R, v) vals)
    by (apply list_elem_of_omap; eauto).
  destruct (omap _ vals) as [|y ys]; [by apply elem_of_nil in Hin|].
  rewrite decide_False; [by eexists|]. by apply not_0_INR.
Qed.

(** The rows of a partition after lines 81-95, where the partition has no
    NULL close: [Prev_Close] is NULL on the first row only, [Moving_Avg_5]
    on none. *)
Lemma part_calculated_columns_nulls (p : DataFrame) :
  p ≠ [] → Forall (λ r, is_Some (Close r)) p →
  length (nulls "Prev_Close" (part_calculated_columns p)) = 1%nat
  ∧ nulls "Moving_Avg_5" (part_calculated_columns p) = [].
Proof.
  intros Hne Hclose. set (q := part_calculated_columns p).
  assert (Hlen : length q = length p).
  { rewrite <- (length_fmap raw q), <- (length_fmap raw p).
    unfold q. by rewrite raw_part_calculated_columns. }
  assert (Hprev : ∀ i r, q !! i = Some r →
            isNull "Prev_Close" r = bool_decide (i = 0%nat)).
  { intros i r Hr.
    apply part_calculated_columns_lookup in Hr
      as (r0 & v & m & Hr0 & _ & Hv & _ & HP & _).
    unfold isNull. rewrite !decide_False by done.
    unfold named_col. change (field_of_name "Prev_Close") with (@None field).
    unfold dcol. rewrite HP. simpl.
    destruct i as [|i].
    - apply lag_lookup_0 in Hv as ->. by rewrite !bool_decide_eq_true_2.
    - apply lag_lookup_S in Hv as (r' & Hr' & ->).
      rewrite Forall_forall in Hclose.
      destruct (Hclose r' (list_elem_of_lookup_2 _ _ _ Hr')) as [x ->].
      rewrite !bool_decide_eq_false_2; done. }
  split.
  - destruct q as [|r q'] eqn:Eq; [destruct p; done|].
    unfold nulls. rewrite filter_cons_True.
    2:{ rewrite (Hprev 0%nat r) by done. by apply bool_decide_eq_true_2. }
    rewrite filter_Forall_nil; [done|].
    apply Forall_forall. intros r' Hr'.
    apply list_elem_of_lookup_1 in Hr' as [i Hi].
    rewrite (Hprev (S i) r') by done. by rewrite bool_decide_eq_false_2.
  - unfold nulls. apply filter_Forall_nil, Forall_forall. intros r Hr.
    apply list_elem_of_lookup_1 in Hr as [i Hr].
    pose proof (lookup_lt_Some _ _ _ Hr) as Hi. rewrite Hlen in Hi.
    apply part_calculated_columns_lookup in Hr
      as (r0 & v & m & Hr0 & _ & _ & Hm & _ & _ & HM).
    unfold isNull. rewrite !decide_False by done.
    unfold named_col. change (field_of_name "Moving_Avg_5") with (@None field).
    unfold dcol. rewrite HM. simpl.
    rewrite avg_over_lookup, Hr0 in Hm. simpl in Hm. injection Hm as <-.
    change (-4) with (Z.opp 5 + 1).
    rewrite (rowsBetween_trailing 5) by (rewrite ?length_fmap; lia).
    rewrite Forall_forall in Hclose.
    destruct (Hclose r0 (list_elem_of_lookup_2 _ _ _ Hr0)) as [x Hx].
    destruct (sql_avg_is_Some (trailing (Z.to_nat 5) i (Close <$> p)) x)
      as [y Hy].
    { unfold trailing. apply (list_elem_of_lookup_2 _ (i - (S i - Z.to_nat 5))%nat).
      rewrite lookup_drop, lookup_take_lt by lia.
      replace (S i - Z.to_nat 5 + (i - (S i - Z.to_nat 5)))%nat with i by lia.
      by rewrite list_lookup_fmap, Hr0, <- Hx. }
    rewrite Hy. by rewrite bool_decide_eq_false_2.
Qed.

Lemma filter_mjoin_length_one {A K} (P : A → Prop) `{!∀ x, Decision (P x)}
    (g : K → list A) (ks : list K) :
  (∀ k, k ∈ ks → length (filter P (g k)) = 1%nat) →
  length (filter P (mjoin (g <$> ks))) = length ks.
Proof.
  induction ks as [|k ks IH]; intros Hks; [done|].
  rewrite fmap_cons, mjoin_cons, filter_app, length_app.
  rewrite (Hks k) by apply list_elem_of_here.
  rewrite IH; [done|]. intros k' Hk'. apply Hks. by apply list_elem_of_further.
Qed.

Lemma filter_mjoin_nil {A K} (P : A → Prop) `{!∀ x, Decision (P x)}
    (g : K → list A) (ks : list K) :
  (∀ k, k ∈ ks → filter P (g k) = []) → filter P (mjoin (g <$> ks)) = [].
Proof.
  induction ks as [|k ks IH]; intros Hks; [done|].
  rewrite fmap_cons, mjoin_cons, filter_app.
  rewrite (Hks k) by apply list_elem_of_here.
  rewrite IH; [done|]. intros k' Hk'. apply Hks. by apply list_elem_of_further.
Qed.

Lemma filter_length_le_elem {A} (P Q : A → Prop) `{!∀ x, Decision (P x)}
    `{!∀ x, Decision (Q x)} (l : list A) :
  (∀ x, x ∈ l → P x → Q x) → (length (filter P l) ≤ length (filter Q l))%nat.
Proof.
  induction l as [|x l IH]; intros HPQ; [done|].
  assert (IH' := IH (λ y Hy, HPQ y (list_elem_of_further _ _ _ Hy))).
  rewrite !filter_cons. destruct (decide (P x)) as [HP|HP].
  - rewrite decide_True by (apply HPQ; [apply list_elem_of_here|done]).
    simpl. lia.
  - destruct (decide (Q x)); simpl; lia.
Qed.

(** A schema column of a row without NULL is not NULL. *)
Lemma isNull_schema (c : string) (r r0 : Row) :
  c ∈ ["Date"; "Adj Close"; "Close"; "High"; "Low"; "Open"; "Volume"; "Stock"] →
  raw r = raw r0 → no_null r0 → isNull c r = false.
Proof.
  intros Hc Hraw (HD & HA & HC & HH & HL & HO & HV & _).
  assert (ED := f_equal Date Hraw). assert (EA := f_equal Adj_Close Hraw).
  assert (EC := f_equal Close Hraw). assert (EH := f_equal High Hraw).
  assert (EL := f_equal Low Hraw). assert (EO := f_equal Open Hraw).
  assert (EV := f_equal Volume Hraw). simpl in *.
  repeat (apply elem_of_cons in Hc as [->|Hc]); [..|by apply elem_of_nil in Hc].
  - unfold isNull. rewrite decide_True by done. rewrite ED.
    destruct HD as [x ->]. by rewrite bool_decide_eq_false_2.
  - unfold isNull. rewrite !decide_False by done.
    change (named_col "Adj Close" r) with (Adj_Close r). rewrite EA.
    destruct HA as [x ->]. by rewrite bool_decide_eq_false_2.
  - unfold isNull. rewrite !decide_False by done.
    change (named_col "Close" r) with (Close r). rewrite EC.
    destruct HC as [x ->]. by rewrite bool_decide_eq_false_2.
  - unfold isNull. rewrite !decide_False by done.
    change (named_col "High" r) with (High r). rewrite EH.
    destruct HH as [x ->]. by rewrite bool_decide_eq_false_2.
  - unfold isNull. rewrite !decide_False by done.
    change (named_col "Low" r) with (Low r). rewrite EL.
    destruct HL as [x ->]. by rewrite bool_decide_eq_false_2.
  - unfold isNull. rewrite !decide_False by done.
    change (named_col "Open" r) with (Open r). rewrite EO.
    destruct HO as [x ->]. by rewrite bool_decide_eq_false_2.
  - unfold isNull. rewrite !decide_False by done.
    change (named_col "Volume" r) with (Volume r). rewrite EV.
    destruct HV as [x ->]. by rewrite bool_decide_eq_false_2.
  - unfold isNull. rewrite decide_False by done. by rewrite decide_True.
Qed.

(** Where [Prev_Close] is NULL after lines 83-87, [Daily_Return] is. *)
Lemma isNull_Daily_Return (p : DataFrame) (r : Row) :
  r ∈ part_calculated_columns p →
  isNull "Prev_Close" r = true → isNull "Daily_Return" r = true.
Proof.
  intros Hr. apply list_elem_of_lookup_1 in Hr as [i Hr].
  apply part_calculated_columns_lookup in Hr
    as (r0 & v & m & _ & _ & _ & _ & HP & HD & _).
  unfold isNull. rewrite !decide_False by done.
  unfold named_col.
  change (field_of_name "Prev_Close") with (@None field).
  change (field_of_name "Daily_Return") with (@None field).
  unfold dcol. rewrite HP, HD. simpl.
  intros Hv%bool_decide_eq_true. subst v. by apply bool_decide_eq_true_2.
Qed.

(** X14: what [count_missing_values] shows for the notebook's frame (the
    files' rows without NULL, with the calculated columns): NULL in every
    column when the frame has no row; otherwise 0 for the schema's columns
    and for [Moving_Avg_5], the number of symbols for [Prev_Close], and at
    least as many, at most the number of rows, for [Daily_Return]. *)
Theorem count_missing_values_notebook (df : DataFrame) :
  let clean := dropna df in
  let out := add_calculated_columns clean in
  (clean = [] →
   count_missing_values notebook_columns out
   = (λ c, ("missing_" +:+ c, None)) <$> notebook_columns)
  ∧ (clean ≠ [] → Z.of_nat (length clean) < 2 ^ 63 →
     ∃ d, Z.of_nat (length (symbols clean)) ≤ d ≤ Z.of_nat (length clean)
       ∧ count_missing_values notebook_columns out
         = [("missing_Date", Some 0); ("missing_Adj Close", Some 0);
            ("missing_Close", Some 0); ("missing_High", Some 0);
            ("missing_Low", Some 0); ("missing_Open", Some 0);
            ("missing_Volume", Some 0); ("missing_Stock", Some 0);
            ("missing_Prev_Close", Some (Z.of_nat (length (symbols clean))));
            ("missing_Daily_Return", Some d);
            ("missing_Moving_Avg_5", Some 0)]).
Proof.
  intros clean out. split.
  - intros E. unfold out. rewrite E. reflexivity.
  - intros Hne Hb.
    assert (Hout : out = mjoin ((part_calculated_columns
                                 ∘ (λ sym, partition_of sym clean))
                                <$> symbols clean))
      by apply add_calculated_columns_unfold.
    assert (Hperm : raw <$> out ≡ₚ raw <$> clean).
    { rewrite Hout. apply raw_laid_out_Permutation, raw_part_calculated_columns. }
    assert (Hlen : length out = length clean).
    { rewrite <- (length_fmap raw out), <- (length_fmap raw clean).
      by apply Permutation_length. }
    assert (Hone : out ≠ []) by (intros E; rewrite E in Hlen; by destruct clean).
    assert (Hclean : ∀ r, r ∈ out → ∃ r0, raw r = raw r0 ∧ no_null r0).
    { intros r Hr. apply (list_elem_of_fmap_2 raw) in Hr.
      rewrite Hperm in Hr. apply list_elem_of_fmap in Hr as (r0 & E & Hr0).
      exists r0. split; [done|]. by apply elem_of_dropna in Hr0 as [? _]. }
    assert (Hpart : ∀ sym, sym ∈ symbols clean →
              partition_of sym clean ≠ []
              ∧ Forall (λ r, is_Some (Close r)) (partition_of sym clean)).
    { intros sym Hs. split; [by apply partition_of_nonempty|].
      apply orderBy_Date_Forall, Forall_forall. intros r Hr.
      apply list_elem_of_filter in Hr as [_ Hr].
      apply elem_of_dropna in Hr as [Hnn _]. apply Hnn. }
    assert (Hschema : ∀ c,
      c ∈ ["Date"; "Adj Close"; "Close"; "High"; "Low"; "Open"; "Volume"; "Stock"] →
      missing c out = Some 0).
    { intros c Hc. rewrite missing_count by (by rewrite ?Hlen).
      unfold nulls. rewrite filter_Forall_nil; [done|].
      apply Forall_forall. intros r Hr. destruct (Hclean r Hr) as (r0 & E & Hnn).
      by rewrite (isNull_schema c r r0). }
    assert (HPC : length (nulls "Prev_Close" out) = length (symbols clean)).
    { rewrite Hout. unfold nulls. apply filter_mjoin_length_one.
      intros sym Hs. destruct (Hpart sym Hs) as [H1 H2].
      apply (part_calculated_columns_nulls _ H1 H2). }
    assert (HMA : nulls "Moving_Avg_5" out = []).
    { rewrite Hout. unfold nulls. apply filter_mjoin_nil.
      intros sym Hs. destruct (Hpart sym Hs) as [H1 H2].
      apply (part_calculated_columns_nulls _ H1 H2). }
    exists (Z.of_nat (length (nulls "Daily_Return" out))). split.
    + split.
      * rewrite <- HPC. apply inj_le. unfold nulls.
        apply filter_length_le_elem. intros r Hr. rewrite Hout in Hr.
        apply list_elem_of_join in Hr as (l & Hr & Hl).
        apply list_elem_of_fmap in Hl as (sym & -> & _).
        exact (isNull_Daily_Return _ r Hr).
      * rewrite <- Hlen. apply inj_le. unfold nulls. apply length_filter.
    + assert (Hb' : Z.of_nat (length out) < 2 ^ 63) by (by rewrite Hlen).
      unfold count_missing_values, notebook_columns.
      rewrite !fmap_cons, fmap_nil.
      rewrite (Hschema "Date"), (Hschema "Adj Close"), (Hschema "Close"),
        (Hschema "High"), (Hschema "Low"), (Hschema "Open"),
        (Hschema "Volume"), (Hschema "Stock")
        by (repeat first [apply list_elem_of_here|apply list_elem_of_further]).
      rewrite (missing_count "Prev_Close" out Hone Hb'),
        (missing_count "Daily_Return" out Hone Hb'),
        (missing_count "Moving_Avg_5" out Hone Hb').
      rewrite HPC, HMA. reflexivity.
Qed.

Lemma count_missing_values_notebook_witness :
  ∃ d, 1 ≤ d ≤ 3
    ∧ count_missing_values notebook_columns
        (add_calculated_columns (dropna three_days))
      = [("missing_Date", Some 0); ("missing_Adj Close", Some 0);
         ("missing_Close", Some 0); ("missing_High", Some 0);
         ("missing_Low", Some 0); ("missing_Open", Some 0);
         ("missing_Volume", Some 0); ("missing_Stock", Some 0);
         ("missing_Prev_Close", Some 1); ("missing_Daily_Return", Some d);
         ("missing_Moving_Avg_5", Some 0)].
Proof.
  apply (proj2 (count_missing_values_notebook three_days)).
  - discriminate.
  - vm_compute. reflexivity.
Defined.
